(** * Archodex query graph: canvas interaction core

    A shallow embedding of the interaction code of the query graph
    ([QueryGraph.tsx], [ELKEdge.tsx], [ResourceNode.tsx]): the drag/click
    recovery handler, the event-chain hover computation, the edge path and
    label geometry, and the relay of selection changes to the reducer and to
    telemetry.

    JavaScript numbers are IEEE-754 binary64 values; they are embedded as
    Rocq's primitive floats, whose operations are the same IEEE operations.
    Plain objects used as dictionaries ([Record<string, T>]) are finite maps
    with string keys, which hold the object's own properties; a property
    read also sees what every plain object inherits from [Object.prototype]
    (see [JS.read]), and the enumeration order of the keys is left out.
    Calls to the outside world ([posthog.capture], [queryDataDispatch],
    [navigate], [element.dispatchEvent]) are recorded, in program order, in
    a list of effects. *)

From Stdlib Require Import PrimFloat FloatAxioms SpecFloat.
From stdpp Require Import strings gmap list.

(** ** JavaScript values *)

Module JS.

(** [!v] for a number: [0], [-0] and [NaN] are falsy. *)
Definition falsyNumber (v : float) : bool :=
  PrimFloat.eqb v 0%float || PrimFloat.is_nan v.

(** [!o] for an optional number ([undefined] is falsy). *)
Definition falsy (o : option float) : bool :=
  match o with
  | None => true
  | Some v => falsyNumber v
  end.

(** [a >= b] on numbers. *)
Definition geb (a b : float) : bool := PrimFloat.leb b a.

(** [s.endsWith(suffix)]. *)
Definition endsWith (s suffix : string) : bool :=
  bool_decide (String.length suffix ≤ String.length s) &&
  String.eqb
    (String.substring (String.length s - String.length suffix)
                      (String.length suffix) s)
    suffix.

(** [Object.values(o)]; the enumeration order of the keys is not modelled. *)
Definition Object_values {A} (o : gmap string A) : list A :=
  (map_to_list o).*2.

(** [parts.join(sep)]. *)
Definition join (sep : string) (parts : list string) : string :=
  String.concat sep parts.

(** The names of the properties that a plain object inherits from
    [Object.prototype] (the prototype as the language defines it, with
    nothing added to it). *)
Definition objectPrototypeKeys : list string :=
  ["constructor"; "__defineGetter__"; "__defineSetter__"; "hasOwnProperty";
   "__lookupGetter__"; "__lookupSetter__"; "isPrototypeOf";
   "propertyIsEnumerable"; "toString"; "valueOf"; "__proto__";
   "toLocaleString"].

Definition inherited (key : string) : bool :=
  bool_decide (key ∈ objectPrototypeKeys).

(** What [o[key]] gives on a plain object: an own property, a property
    inherited from [Object.prototype] (a function, or the prototype itself
    for [__proto__]: truthy, and without the properties the code goes on to
    read), or [undefined]. *)
Inductive Property (A : Type) :=
| Own (a : A)
| Inherited
| Undefined.

Arguments Own {A}.
Arguments Inherited {A}.
Arguments Undefined {A}.

Definition read {A} (o : gmap string A) (key : string) : Property A :=
  match o !! key with
  | Some a => Own a
  | None => if inherited key then Inherited else Undefined
  end.

End JS.

(** ** Data model ([ELKEdge.tsx], [ResourceNode.tsx], React Flow, elkjs) *)

(** [{ x: number; y: number }] *)
Module XY.
Record t := mk { x : float; y : float }.
End XY.

(** [label: { text?: string; x?: number; y?: number; width?: number }] *)
Module Label.
Record t := mk {
  text : option string;
  x : option float;
  y : option float;
  width : option float }.
End Label.

(** elkjs [ElkEdgeSection]: the routed path of an edge. *)
Module ElkEdgeSection.
Record t := mk {
  startPoint : XY.t;
  bendPoints : option (list XY.t);
  endPoint : XY.t }.
End ElkEdgeSection.

(** [ResourceId]: the path of [{type, id}] parts from the root to the
    resource. *)
Module ResourceIdPart.
Record t := mk { type : string; id : string }.
End ResourceIdPart.

Definition ResourceId := list ResourceIdPart.t.

Module ResourceEvent.
Record t := mk {
  principal : ResourceId;
  type : string;
  resource : ResourceId }.
End ResourceEvent.

Module ELKEdgeData.
Record t := mk {
  originalSourceId : string;
  originalTargetId : string;
  label : Label.t;
  section : option ElkEdgeSection.t;
  events : list ResourceEvent.t;
  eventChainHovered : option bool }.
End ELKEdgeData.

(** React Flow's [Edge<ELKEdgeData>]; [data] is optional there. *)
Module Edge.
Record t := mk {
  id : string;
  source : string;
  target : string;
  selected : option bool;
  data : option ELKEdgeData.t }.
End Edge.

(** React Flow's [EdgeProps<ELKEdge>], as far as the component reads them. *)
Module EdgeProps.
Record t := mk {
  id : string;
  selected : option bool;
  data : option ELKEdgeData.t;
  markerEnd : option string }.
End EdgeProps.

(** [ResourceNodeData], as far as the handlers and class names read it. *)
Module ResourceNodeData.
Record t := mk {
  id : ResourceId;
  numChildren : nat;
  collapsed : bool;
  resourceIssueIds : list string;
  highlighted : option bool }.
End ResourceNodeData.

(** React Flow's [Node<ResourceNodeData>]; [data] is mandatory there. *)
Module Node.
Record t := mk { id : string; data : ResourceNodeData.t }.
End Node.

(** [EventChainLinks]: per edge id, its [Links]. *)
Module Links.
Record t := mk { preceding : list string; following : list string }.
End Links.

(** ** Outbound effects *)

Inductive QueryDataAction :=
| SelectResource (resourceId : string) (refitView : bool)
| DeselectResource (resourceId : string)
| SelectEdge (edgeId : string) (refitView : bool)
| DeselectEdge (edgeId : string)
| SelectIssue (issueId : string) (refitView : bool)
| InitialRenderCompleted.

Inductive Effect :=
| PosthogCapture (event : string) (properties : list (string * option string))
| QueryDataDispatch (action : QueryDataAction)
| Navigate (to : string).

(** ** [QueryGraph.tsx]: constants *)

Definition ISSUE_BADGE_SIZE : float := 26%float.

(** ** [ELKEdge.tsx] *)

Definition edgeClassName (selected eventChainHovered : option bool) : string :=
  let selected := default false selected in
  let eventChainHovered := default false eventChainHovered in
  let classes : list string := [] in
  let classes :=
    if negb eventChainHovered && negb selected
    then classes ++ ["opacity-40"] else classes in
  let classes :=
    if eventChainHovered
    then classes ++ ["stroke-hover"; "stroke-[2px]"]
    else classes ++ ["stroke-foreground"; "dark:stroke-primary"] in
  let classes :=
    if selected
    then
      let classes := classes ++ ["stroke-primary"; "stroke-[2px]"; "opacity-80"] in
      if eventChainHovered
      then classes ++ ["stroke-[3px]"; "opacity-100"] else classes
    else classes in
  JS.join " " classes.

(** The label is "covered" by the segment from [start] to [end_]. *)
Definition segmentCovers (labelX labelWidth : float) (start end_ : XY.t) : bool :=
  (PrimFloat.leb (XY.x start) labelX && JS.geb (XY.x end_) labelX)
  || (PrimFloat.leb (XY.x start) (labelX + labelWidth)%float
      && JS.geb (XY.x end_) (labelX + labelWidth)%float).

(** One update of the running minimum: [y] replaces [closest] when it is
    strictly closer to the label. *)
Definition closerY (labelY closest y : float) : float :=
  if PrimFloat.ltb (PrimFloat.abs (y - labelY)) (PrimFloat.abs (closest - labelY))
  then y else closest.

(** The loop [for (let i = 0; i < points.length - 1; i++)] over the pairs
    [points[i]], [points[i + 1]]. *)
Fixpoint scanSegments (labelX labelY labelWidth closestPathYToLabel : float)
    (points : list XY.t) : float :=
  match points with
  | start :: ((end_ :: _) as rest) =>
      let closestPathYToLabel :=
        if segmentCovers labelX labelWidth start end_
        then
          let closestPathYToLabel :=
            closerY labelY closestPathYToLabel (XY.y start) in
          closerY labelY closestPathYToLabel (XY.y end_)
        else closestPathYToLabel in
      scanSegments labelX labelY labelWidth closestPathYToLabel rest
  | _ => closestPathYToLabel
  end.

Definition calculateClosestPathMidpoint (label : Label.t) (points : list XY.t)
    : option float :=
  match Label.x label, Label.y label, Label.width label with
  | Some labelX, Some labelY, Some labelWidth =>
      if JS.falsyNumber labelX || JS.falsyNumber labelY || JS.falsyNumber labelWidth
      then Label.y label
      else Some (scanSegments labelX labelY labelWidth infinity points)
  | _, _, _ => Label.y label
  end.

(** A path command of the SVG path built by the component. *)
Inductive PathCommand :=
| MoveTo (p : XY.t)
| LineTo (p : XY.t).

Definition commandPoint (c : PathCommand) : XY.t :=
  match c with
  | MoveTo p => p
  | LineTo p => p
  end.

(** The commands pushed onto [segments], in push order. *)
Definition pathCommands (section : ElkEdgeSection.t) : list PathCommand :=
  let segments : list PathCommand := [] in
  let segments :=
    segments ++
      [MoveTo (XY.mk (XY.x (ElkEdgeSection.startPoint section) - ISSUE_BADGE_SIZE / 2)%float
                     (XY.y (ElkEdgeSection.startPoint section)))] in
  let segments :=
    foldl (fun segments bendPoint => segments ++ [LineTo bendPoint])
          segments (default [] (ElkEdgeSection.bendPoints section)) in
  segments ++ [LineTo (ElkEdgeSection.endPoint section)].

(** What the component returns when it renders: the [BaseEdge] and the label
    [div]. The label position is kept as the two numbers that the [translate]
    of the style is printed from. *)
Module EdgeElement.
Record t := mk {
  id : string;
  className : string;
  path : string;
  markerEnd : option string;
  labelX : option float;
  labelY : option float;
  labelText : option string }.
End EdgeElement.

Section ELKEdgeComponent.

(** [String(n)] / [n.toString()] on numbers (ECMAScript [Number::toString]). *)
Variable numberToString : float -> string.

Definition segmentString (c : PathCommand) : string :=
  match c with
  | MoveTo p => "M " +:+ numberToString (XY.x p) +:+ " " +:+ numberToString (XY.y p)
  | LineTo p => "L " +:+ numberToString (XY.x p) +:+ " " +:+ numberToString (XY.y p)
  end.

(** The component; [None] is the [null] rendering. *)
Definition ELKEdge (props : EdgeProps.t) : option EdgeElement.t :=
  match EdgeProps.data props with
  | None => None
  | Some data =>
      let label := ELKEdgeData.label data in
      match ELKEdgeData.section data with
      | None => None
      | Some section =>
          let path := JS.join " " (segmentString <$> pathCommands section) in
          let points :=
            [ElkEdgeSection.startPoint section]
              ++ default [] (ElkEdgeSection.bendPoints section)
              ++ [ElkEdgeSection.endPoint section] in
          Some (EdgeElement.mk
                  (EdgeProps.id props)
                  (edgeClassName (EdgeProps.selected props)
                                 (ELKEdgeData.eventChainHovered data))
                  path
                  (EdgeProps.markerEnd props)
                  (Label.x label)
                  (calculateClosestPathMidpoint label points)
                  (Label.text label))
      end
  end.

End ELKEdgeComponent.

(** ** [QueryGraph.tsx]: drag/click recovery *)

Inductive EventType :=
| mousedown
| mousemove
| mouseup
| otherEvent (name : string).

(** The event handed to the [OnMove] callbacks. For events that are not mouse
    events the handler never reads the coordinates. *)
Module MoveEvent.
Record t := mk { type : EventType; clientX : float; clientY : float }.
End MoveEvent.

(** The two module-level variables [lastMouseCoords] and [distanceMoved]. *)
Module Gesture.
Record t := mk { lastMouseCoords : option XY.t; distanceMoved : float }.
End Gesture.

(** Their values when the module is loaded. *)
Definition gestureInit : Gesture.t := Gesture.mk None 0%float.

(** A mounted [Inner] instance and its [React.useState] hovered-edge set. *)
Module CanvasInstance.
Record t := mk { hoveredEdges : list string }.
End CanvasInstance.

(** The page: the module's variables, once, and the mounted canvases. *)
Module Page.
Record t := mk {
  moduleGesture : Gesture.t;
  mounted : gmap nat CanvasInstance.t }.
End Page.

Section DragClick.

(** DOM elements and [document.elementFromPoint]. *)
Variable Element : Type.
Variable elementFromPoint : float -> float -> option Element.

(** [element.dispatchEvent(new MouseEvent('click', {clientX, clientY, ...}))] *)
Inductive DomEffect :=
| DispatchClick (element : Element) (clientX clientY : float).

Definition dragClickHandler (event : option MoveEvent.t) (g : Gesture.t)
    : Gesture.t * list DomEffect :=
  match event with
  | None => (g, [])
  | Some event =>
      match MoveEvent.type event with
      | mousedown =>
          (Gesture.mk
             (Some (XY.mk (MoveEvent.clientX event) (MoveEvent.clientY event)))
             0%float,
           [])
      | otherEvent _ => (g, [])
      | _ (* mousemove, mouseup *) =>
          match Gesture.lastMouseCoords g with
          | None => (g, [])
          | Some lastMouseCoords =>
              let dx := (MoveEvent.clientX event - XY.x lastMouseCoords)%float in
              let dy := (MoveEvent.clientY event - XY.y lastMouseCoords)%float in
              let distanceMoved :=
                (Gesture.distanceMoved g + PrimFloat.sqrt (dx * dx + dy * dy))%float in
              let lastMouseCoords :=
                XY.mk (MoveEvent.clientX event) (MoveEvent.clientY event) in
              match MoveEvent.type event with
              | mouseup =>
                  let clicks :=
                    if PrimFloat.ltb distanceMoved 5%float
                    then
                      match elementFromPoint (MoveEvent.clientX event)
                                             (MoveEvent.clientY event) with
                      | Some element =>
                          [DispatchClick element (MoveEvent.clientX event)
                                         (MoveEvent.clientY event)]
                      | None => []
                      end
                    else [] in
                  (Gesture.mk None 0%float, clicks)
              | _ => (Gesture.mk (Some lastMouseCoords) distanceMoved, [])
              end
          end
      end
  end.

(** The handler run over a sequence of events, from a given state. *)
Definition dragClickRun (events : list (option MoveEvent.t)) (g : Gesture.t)
    : Gesture.t * list DomEffect :=
  foldl (fun acc event =>
           let '(g', clicks) := dragClickHandler event acc.1 in
           (g', acc.2 ++ clicks))
        (g, []) events.

(** States the module can be in: those reached from the initial values by
    calls of the handler. *)
Inductive gestureReachable : Gesture.t -> Prop :=
| reach_init : gestureReachable gestureInit
| reach_step g event :
    gestureReachable g -> gestureReachable (dragClickHandler event g).1.

(** *** Several canvases on one page

    Every mounted [QueryGraph] passes the same [dragClickHandler] to its
    [ReactFlow] as [onMoveStart], [onMove] and [onMoveEnd]; the handler reads
    and writes the module's two variables. The hovered-edge set, in contrast,
    is [React.useState] of each [Inner] instance. *)

(** A move callback of the mounted canvas [canvas] fires with [event]. *)
Definition canvasMoveEvent (canvas : nat) (event : option MoveEvent.t)
    (page : Page.t) : Page.t * list DomEffect :=
  match Page.mounted page !! canvas with
  | None => (page, [])
  | Some _ =>
      let '(g, clicks) := dragClickHandler event (Page.moduleGesture page) in
      (Page.mk g (Page.mounted page), clicks)
  end.

(** The classifier state that the handler of canvas [canvas] works on. *)
Definition classifierState (canvas : nat) (page : Page.t) : Gesture.t :=
  Page.moduleGesture page.

End DragClick.

Arguments DispatchClick {Element}.
Arguments dragClickHandler {Element}.
Arguments dragClickRun {Element}.
Arguments gestureReachable {Element}.
Arguments canvasMoveEvent {Element}.

(** ** [QueryGraph.tsx]: hovered edges and the event chain *)

(** [Set<string>] in insertion order. *)
Definition setAdd (s : list string) (v : string) : list string :=
  if bool_decide (v ∈ s) then s else s ++ [v].

Definition setDelete (s : list string) (v : string) : list string :=
  filter (fun w => w ≠ v) s.

Inductive HoverEventType := mouseenter | mouseleave.

Definition handleEdgeHover (eventType : HoverEventType) (edge : Edge.t)
    (prev : list string) : list string :=
  let newHovered := prev in
  match eventType with
  | mouseenter => setAdd newHovered (Edge.id edge)
  | mouseleave => setDelete newHovered (Edge.id edge)
  end.

(** [{ ...edge, data: { ...edge.data, eventChainHovered: true } }] *)
Definition withEventChainHovered (edge : Edge.t) (data : ELKEdgeData.t) : Edge.t :=
  Edge.mk (Edge.id edge) (Edge.source edge) (Edge.target edge) (Edge.selected edge)
    (Some (ELKEdgeData.mk
             (ELKEdgeData.originalSourceId data)
             (ELKEdgeData.originalTargetId data)
             (ELKEdgeData.label data)
             (ELKEdgeData.section data)
             (ELKEdgeData.events data)
             (Some true))).

(** The objects and arrays that the computation of [edgesArray] constructs. *)
Inductive Allocation :=
| SpreadEdges
    (* { ...edges } *)
| ChainIdsArray (edgeId : string)
    (* [edgeId, ...preceding, ...following] *)
| HoveredEdgeCopy (eventChainEdgeId : string)
    (* { ...edge, data: { ...edge.data, eventChainHovered: true } } *)
| ValuesArray.
    (* Object.values(...) *)

(** A run of that computation: what it constructed, in program order, and
    its outcome: [Some] result, or [None] when a [TypeError] was thrown. *)
Module Build.

Definition t (A : Type) : Type := (list Allocation * option A)%type.

Definition ret {A} (a : A) : t A := ([], Some a).

Definition bind {A B} (m : t A) (k : A -> t B) : t B :=
  match m.2 with
  | None => (m.1, None)
  | Some a => (m.1 ++ (k a).1, (k a).2)
  end.

Definition alloc (a : Allocation) : t unit := ([a], Some tt).

Definition throwTypeError {A} : t A := ([], None).

(** [for (const a of l) acc = body(acc, a)] *)
Fixpoint forOf {A B} (body : B -> A -> t B) (acc : B) (l : list A) : t B :=
  match l with
  | [] => ret acc
  | a :: l => bind (body acc a) (fun acc => forOf body acc l)
  end.

End Build.

#[global] Instance build_ret : MRet Build.t := @Build.ret.
#[global] Instance build_bind : MBind Build.t := fun A B k m => Build.bind m k.

(** Body of the inner loop, for one [eventChainEdgeId]. An inherited
    property read from [edges] has no [data], like an absent one. *)
Definition markChainEdge (edges : gmap string Edge.t)
    (edgesWithHovered : gmap string Edge.t) (eventChainEdgeId : string)
    : Build.t (gmap string Edge.t) :=
  match JS.read edges eventChainEdgeId with
  | JS.Undefined => mret edgesWithHovered
  | JS.Inherited => mret edgesWithHovered
  | JS.Own edge =>
      match Edge.data edge with
      | None => mret edgesWithHovered
      | Some data =>
          Build.alloc (HoveredEdgeCopy eventChainEdgeId);;
          mret (<[eventChainEdgeId := withEventChainHovered edge data]>
                  edgesWithHovered)
      end
  end.

(** [[edgeId, ...edgeEventChainLinks.preceding, ...edgeEventChainLinks.following]] *)
Definition eventChainEdgeIds (edgeId : string) (edgeEventChainLinks : Links.t)
    : list string :=
  [edgeId] ++ Links.preceding edgeEventChainLinks
           ++ Links.following edgeEventChainLinks.

(** Body of the outer loop, for one hovered [edgeId]. An inherited property
    read from [eventChainLinks] is truthy, so the guard lets it pass, and
    spreading its [preceding], which is [undefined], throws. *)
Definition markHoveredEdge (edges : gmap string Edge.t)
    (eventChainLinks : gmap string Links.t)
    (edgesWithHovered : gmap string Edge.t) (edgeId : string)
    : Build.t (gmap string Edge.t) :=
  match JS.read eventChainLinks edgeId with
  | JS.Undefined => mret edgesWithHovered
  | JS.Inherited => Build.throwTypeError
  | JS.Own edgeEventChainLinks =>
      Build.alloc (ChainIdsArray edgeId);;
      Build.forOf (markChainEdge edges) edgesWithHovered
                  (eventChainEdgeIds edgeId edgeEventChainLinks)
  end.

(** The copy [edgesWithHovered] and both loops. *)
Definition edgesWithHoveredRun (hoveredEdges : list string)
    (edges : gmap string Edge.t) (eventChainLinks : gmap string Links.t)
    : Build.t (gmap string Edge.t) :=
  Build.alloc SpreadEdges;;
  Build.forOf (markHoveredEdge edges eventChainLinks) edges hoveredEdges.

(** The callback of the [useMemo] of [edgesArray]. *)
Definition edgesArrayRun (hoveredEdges : list string)
    (edges : gmap string Edge.t) (eventChainLinks : gmap string Links.t)
    : Build.t (list Edge.t) :=
  if bool_decide (length hoveredEdges = 0)
  then Build.alloc ValuesArray;; mret (JS.Object_values edges)
  else
    edgesWithHovered ← edgesWithHoveredRun hoveredEdges edges eventChainLinks;
    Build.alloc ValuesArray;;
    mret (JS.Object_values edgesWithHovered).

(** The object [edgesWithHovered] after both loops, and the array returned;
    [None] when the [TypeError] was thrown. *)
Definition edgesWithHovered (hoveredEdges : list string)
    (edges : gmap string Edge.t) (eventChainLinks : gmap string Links.t)
    : option (gmap string Edge.t) :=
  (edgesWithHoveredRun hoveredEdges edges eventChainLinks).2.

Definition edgesArray (hoveredEdges : list string)
    (edges : gmap string Edge.t) (eventChainLinks : gmap string Links.t)
    : option (list Edge.t) :=
  (edgesArrayRun hoveredEdges edges eventChainLinks).2.

(** ** Handler runs

    A handler run is the list of effects it performed, in program order, and
    its outcome: [Some] result, or [None] when a [TypeError] was thrown (a
    property read on [undefined]) and the handler was left at that point. *)

Module Run.

Definition t (A : Type) : Type := (list Effect * option A)%type.

Definition ret {A} (a : A) : t A := ([], Some a).

Definition bind {A B} (m : t A) (k : A -> t B) : t B :=
  match m.2 with
  | None => (m.1, None)
  | Some a => (m.1 ++ (k a).1, (k a).2)
  end.

Definition emit (e : Effect) : t unit := ([e], Some tt).

Definition throwTypeError {A} : t A := ([], None).

(** [for (const a of l) body(a)] *)
Fixpoint forOf {A} (l : list A) (body : A -> t unit) : t unit :=
  match l with
  | [] => ret tt
  | a :: l => bind (body a) (fun _ => forOf l body)
  end.

(** [o[key].data.id]: throws unless the key is an own property of [o];
    [o[key]] is [undefined] for an absent key, and for a key inherited from
    [Object.prototype] its [data] is [undefined]. *)
Definition get {A} (o : gmap string A) (key : string) : t A :=
  match o !! key with
  | Some a => ret a
  | None => throwTypeError
  end.

End Run.

#[global] Instance run_ret : MRet Run.t := @Run.ret.
#[global] Instance run_bind : MBind Run.t := fun A B k m => Run.bind m k.

(** ** [QueryGraph.tsx]: selection changes *)

Inductive OtherChangeType := dimensions | position | remove | add | replace.

(** React Flow's [NodeChange] and [EdgeChange]: a selection change
    [{ id, type: 'select', selected }], or a change of another type. *)
Inductive Change :=
| SelectionChange (id : string) (selected : bool)
| OtherChange (type : OtherChangeType) (id : string).

(** [changes.filter((c) => c.type === 'select')] *)
Definition selectChanges (changes : list Change) : list (string * bool) :=
  omap (fun c => match c with
                 | SelectionChange id selected => Some (id, selected)
                 | OtherChange _ _ => None
                 end) changes.

Section Handlers.

(** [typeIdFromResourceId] of [lib/utils]. *)
Variable typeIdFromResourceId : ResourceId -> string.

Definition onNodesChange (nodes : gmap string Node.t) (nodeChanges : list Change)
    : Run.t unit :=
  Run.forOf (selectChanges nodeChanges) (fun change =>
    if change.2 then
      node ← Run.get nodes change.1;
      Run.emit (PosthogCapture "graph_resource_selected"
             [("resource_type",
               Some (typeIdFromResourceId (ResourceNodeData.id (Node.data node))))]);;
      Run.emit (QueryDataDispatch (SelectResource change.1 false))
    else
      node ← Run.get nodes change.1;
      Run.emit (PosthogCapture "graph_resource_deselected"
             [("resource_type",
               Some (typeIdFromResourceId (ResourceNodeData.id (Node.data node))))]);;
      Run.emit (QueryDataDispatch (DeselectResource change.1))).

(** [edge.data?.events[0]] *)
Definition firstEvent (edge : Edge.t) : option ResourceEvent.t :=
  match Edge.data edge with
  | None => None
  | Some data => head (ELKEdgeData.events data)
  end.

(** [edges[id].data?.events[0]]: a [TypeError] when [edges[id]] is
    [undefined]; an inherited property has no [data], which gives
    [undefined] without an error. *)
Definition firstEventAt (edges : gmap string Edge.t) (id : string)
    : Run.t (option ResourceEvent.t) :=
  match JS.read edges id with
  | JS.Own edge => Run.ret (firstEvent edge)
  | JS.Inherited => Run.ret None
  | JS.Undefined => Run.throwTypeError
  end.

Definition onEdgesChange (edges : gmap string Edge.t) (edgeChanges : list Change)
    : Run.t unit :=
  Run.forOf (selectChanges edgeChanges) (fun change =>
    first ← firstEventAt edges change.1;
    let principal := ResourceEvent.principal <$> first in
    let resource := ResourceEvent.resource <$> first in
    let properties :=
      [("principal_type", typeIdFromResourceId <$> principal);
       ("event_type", ResourceEvent.type <$> first);
       ("resource_type", typeIdFromResourceId <$> resource)] in
    if change.2 then
      Run.emit (PosthogCapture "graph_event_selected" properties);;
      Run.emit (QueryDataDispatch (SelectEdge change.1 false))
    else
      Run.emit (PosthogCapture "graph_event_deselected" properties);;
      Run.emit (QueryDataDispatch (DeselectEdge change.1))).

(** ** [ResourceNode.tsx]: the issue badge

    [pathname] is [location.pathname] at the time of the click; every
    [navigate] call is made with [{ replace: true, relative: 'path' }]. *)
Definition selectResourceIssues (pathname : string) (data : ResourceNodeData.t)
    : Run.t unit :=
  Run.emit (PosthogCapture "resource_node_issue_badge_clicked"
      [("resource_type", Some (typeIdFromResourceId (ResourceNodeData.id data)))]);;
  (if JS.endsWith pathname "/events" then Run.emit (Navigate "../issues")
   else if negb (JS.endsWith pathname "/issues") then Run.emit (Navigate "./issues")
   else Run.ret tt);;
  Run.forOf (ResourceNodeData.resourceIssueIds data) (fun issueId =>
    Run.emit (QueryDataDispatch (SelectIssue issueId false))).

End Handlers.

(** The actions handed to [queryDataDispatch] in a list of effects. *)
Definition dispatched (effects : list Effect) : list QueryDataAction :=
  omap (fun e => match e with QueryDataDispatch a => Some a | _ => None end) effects.

(** The targets of the [navigate] calls in a list of effects. *)
Definition navigations (effects : list Effect) : list string :=
  omap (fun e => match e with Navigate to => Some to | _ => None end) effects.

(** ** Gestures

    The length of the pointer path from [from] through [points], summed the
    way the handler sums it: segment by segment onto [acc]. *)
Definition segmentLength (a b : XY.t) : float :=
  let dx := (XY.x b - XY.x a)%float in
  let dy := (XY.y b - XY.y a)%float in
  PrimFloat.sqrt (dx * dx + dy * dy).

Fixpoint pathLength (from : XY.t) (points : list XY.t) (acc : float) : float :=
  match points with
  | [] => acc
  | p :: points => pathLength p points (acc + segmentLength from p)%float
  end.

Definition mouseEvent (type : EventType) (p : XY.t) : option MoveEvent.t :=
  Some (MoveEvent.mk type (XY.x p) (XY.y p)).

(** A whole gesture: press at [start], move through [moves], release at
    [release]. *)
Definition gestureEvents (start : XY.t) (moves : list XY.t) (release : XY.t)
    : list (option MoveEvent.t) :=
  [mouseEvent mousedown start] ++ (mouseEvent mousemove <$> moves)
    ++ [mouseEvent mouseup release].

(** An edge hover event on the mounted canvas [canvas]. *)
Definition canvasEdgeHover (canvas : nat) (eventType : HoverEventType)
    (edge : Edge.t) (page : Page.t) : Page.t :=
  Page.mk (Page.moduleGesture page)
    (alter (fun c => CanvasInstance.mk
                       (handleEdgeHover eventType edge (CanvasInstance.hoveredEdges c)))
           canvas (Page.mounted page)).

(** ** Event chains

    [id] is in the event chain of the hovered set: it is a hovered id that
    has a link entry, or one of the ids that entry lists. *)
Definition inEventChain (hoveredEdges : list string)
    (eventChainLinks : gmap string Links.t) (id : string) : Prop :=
  ∃ edgeId links,
    edgeId ∈ hoveredEdges ∧ eventChainLinks !! edgeId = Some links
    ∧ id ∈ eventChainEdgeIds edgeId links.

(** The round of the outer loop for the hovered id [edgeId] throws: the id
    has no link entry of its own and names an inherited property. *)
Definition throwsAt (eventChainLinks : gmap string Links.t) (edgeId : string)
    : bool :=
  match JS.read eventChainLinks edgeId with
  | JS.Inherited => true
  | _ => false
  end.

(** No round of the outer loop throws. *)
Definition completes (eventChainLinks : gmap string Links.t)
    (hoveredEdges : list string) : Prop :=
  ∀ edgeId, edgeId ∈ hoveredEdges -> throwsAt eventChainLinks edgeId = false.

(** The ids visited by the inner loop over all rounds of the outer loop. *)
Definition visitedIds (hoveredEdges : list string)
    (eventChainLinks : gmap string Links.t) : list string :=
  hoveredEdges ≫= fun edgeId =>
    match eventChainLinks !! edgeId with
    | None => []
    | Some links => eventChainEdgeIds edgeId links
    end.

(** The map [edgesWithHovered] after the inner loop visited [id]. *)
Definition afterVisit (edges : gmap string Edge.t)
    (edgesWithHovered : gmap string Edge.t) (id : string) : gmap string Edge.t :=
  match edges !! id with
  | None => edgesWithHovered
  | Some edge =>
      match Edge.data edge with
      | None => edgesWithHovered
      | Some data => <[id := withEventChainHovered edge data]> edgesWithHovered
      end
  end.

(** What the loops leave at an edge that was visited. *)
Definition visitedEdge (edge : Edge.t) : Edge.t :=
  match Edge.data edge with
  | None => edge
  | Some data => withEventChainHovered edge data
  end.

(** The state of [edgesWithHovered] once the ids in [visited] were visited. *)
Definition markedUpTo (edges : gmap string Edge.t) (visited : list string)
    (edgesWithHovered : gmap string Edge.t) : Prop :=
  ∀ id, edgesWithHovered !! id =
          if bool_decide (id ∈ visited) then visitedEdge <$> edges !! id
          else edges !! id.

(** The flag as the edge component reads it ([data.eventChainHovered], absent
    meaning [false]). *)
Definition isEventChainHovered (edge : Edge.t) : bool :=
  match Edge.data edge with
  | None => false
  | Some data => default false (ELKEdgeData.eventChainHovered data)
  end.

(** ** Relayed selection changes

    The action and the telemetry event that belong to one selection change. *)
Definition selectionAction (change : string * bool) : QueryDataAction :=
  if change.2 then SelectResource change.1 false else DeselectResource change.1.

Definition selectionTelemetry (typeIdFromResourceId : ResourceId -> string)
    (node : Node.t) (selected : bool) : Effect :=
  PosthogCapture
    (if selected then "graph_resource_selected" else "graph_resource_deselected")
    [("resource_type",
      Some (typeIdFromResourceId (ResourceNodeData.id (Node.data node))))].

(** ** Sample inputs *)

(** The path [(0,0), (10,0), (10,10)]. *)
Definition cornerPath : list XY.t :=
  [XY.mk 0 0; XY.mk 10 0; XY.mk 10 10]%float.

(** The label [{x: 10, y: 5, width}]. *)
Definition labelAtCorner (width : float) : Label.t :=
  Label.mk None (Some 10%float) (Some 5%float) (Some width).

(** An edge's data without a routed section. *)
Definition unroutedData : ELKEdgeData.t :=
  ELKEdgeData.mk "a" "b" (labelAtCorner 4%float) None [] None.

(** A page with two mounted canvases, just loaded. *)
Definition twoCanvasPage : Page.t :=
  Page.mk gestureInit
    {[ 1 := CanvasInstance.mk []; 2 := CanvasInstance.mk [] ]}.

(** A hit test that finds the element [7] everywhere. *)
Definition hitEverywhere : float -> float -> option nat := fun _ _ => Some 7.

(** Edges [A] and [B] with data, [C] without data. *)
Definition sampleData (source target : string) : ELKEdgeData.t :=
  ELKEdgeData.mk source target (Label.mk None None None None) None [] None.

Definition sampleEdges : gmap string Edge.t :=
  {[ "A" := Edge.mk "A" "n1" "n2" None (Some (sampleData "n1" "n2"));
     "B" := Edge.mk "B" "n2" "n3" None (Some (sampleData "n2" "n3"));
     "C" := Edge.mk "C" "n3" "n4" None None ]}.

(** [A] is followed by [B] and by an edge that is no longer in the map; [C]
    has an entry of its own; [B] has none. *)
Definition sampleLinks : gmap string Links.t :=
  {[ "A" := Links.mk [] ["B"; "gone"];
     "C" := Links.mk [] [] ]}.

(** An edge map whose only edge has the id [constructor]. *)
Definition constructorEdges : gmap string Edge.t :=
  {[ "constructor" :=
       Edge.mk "constructor" "n1" "n2" None (Some (sampleData "n1" "n2")) ]}.

(** A node map that holds the node [A]. *)
Definition sampleNodes : gmap string Node.t :=
  {[ "A" := Node.mk "A"
              (ResourceNodeData.mk [ResourceIdPart.mk "Secret Value" "abc"]
                 0 false ["issue-1"; "issue-2"] None) ]}.

(** A stand-in for [typeIdFromResourceId]: the types of the parts. *)
Definition sampleTypeId (resourceId : ResourceId) : string :=
  JS.join "::" (ResourceIdPart.type <$> resourceId).

(** ** More of [QueryGraph.tsx] *)

(** Mouse events, as opposed to [null] and to touch or wheel events. *)
Definition isMouseEvent (event : option MoveEvent.t) : bool :=
  match event with
  | None => false
  | Some event =>
      match MoveEvent.type event with
      | otherEvent _ => false
      | _ => true
      end
  end.

Definition isMouseEventOf (type : EventType) (event : option MoveEvent.t) : bool :=
  match event, type with
  | Some event, mousedown =>
      match MoveEvent.type event with mousedown => true | _ => false end
  | Some event, mouseup =>
      match MoveEvent.type event with mouseup => true | _ => false end
  | Some event, mousemove =>
      match MoveEvent.type event with mousemove => true | _ => false end
  | _, _ => false
  end.

(** The hovered set after a sequence of [onEdgeMouseEnter] and
    [onEdgeMouseLeave] callbacks. *)
Definition hoverRun (events : list (HoverEventType * Edge.t)) (prev : list string)
    : list string :=
  foldl (fun hovered event => handleEdgeHover event.1 event.2 hovered) prev events.

(** ** More of [ELKEdge.tsx] *)

(** The array [classes] of [edgeClassName] before it is joined. *)
Definition edgeClasses (selected eventChainHovered : option bool) : list string :=
  let selected := default false selected in
  let eventChainHovered := default false eventChainHovered in
  let classes : list string := [] in
  let classes :=
    if negb eventChainHovered && negb selected
    then classes ++ ["opacity-40"] else classes in
  let classes :=
    if eventChainHovered
    then classes ++ ["stroke-hover"; "stroke-[2px]"]
    else classes ++ ["stroke-foreground"; "dark:stroke-primary"] in
  if selected
  then
    let classes := classes ++ ["stroke-primary"; "stroke-[2px]"; "opacity-80"] in
    if eventChainHovered
    then classes ++ ["stroke-[3px]"; "opacity-100"] else classes
  else classes.

(** The array [points] that the component hands to the label correction. *)
Definition labelPoints (section : ElkEdgeSection.t) : list XY.t :=
  [ElkEdgeSection.startPoint section]
    ++ default [] (ElkEdgeSection.bendPoints section)
    ++ [ElkEdgeSection.endPoint section].

(** The pairs [points[i]], [points[i + 1]] that the loop of the label
    correction visits. *)
Fixpoint consecutivePairs (points : list XY.t) : list (XY.t * XY.t) :=
  match points with
  | start :: ((end_ :: _) as rest) => (start, end_) :: consecutivePairs rest
  | _ => []
  end.

(** ** More of [ResourceNode.tsx] *)

(** The double-quote character. *)
Definition dquote : string := String (Ascii.ascii_of_nat 34) EmptyString.

(** The array [classes] of [containerClassName] before it is joined. *)
Definition containerClasses (selected : bool) (data : ResourceNodeData.t)
    : list string :=
  let isOpenContainer :=
    bool_decide (0 < ResourceNodeData.numChildren data)
    && negb (ResourceNodeData.collapsed data) in
  let classes :=
    ["w-full";
     if isOpenContainer then "h-[var(--resource-title-height)]" else "h-full";
     "flex-none";
     "after:content-[" +:+ dquote +:+ dquote +:+ "]";
     "after:absolute"; "after:top-0"; "after:left-0"; "after:right-0";
     "after:bottom-0"; "after:bg-none"; "after:rounded-md";
     "after:border-primary"; "after:pointer-events-none"] in
  if selected
  then classes ++
       ["before:content-[" +:+ dquote +:+ dquote +:+ "]";
        "before:absolute"; "before:top-0"; "before:left-0"; "before:right-0";
        "before:bottom-0"; "before:bg-none"; "before:rounded-md";
        "before:border-[5px]"; "before:border-background";
        "after:border-[6px]"; "after:border-double"]
  else classes ++ ["after:border"; "after:border-primary"].

Definition containerClassName (selected : bool) (data : ResourceNodeData.t)
    : string :=
  JS.join " " (containerClasses selected data).

(** [new Set(values)] *)
Definition newSet (values : list string) : list string :=
  foldl setAdd [] values.

(** An entry of the list in the add-environment dialog: its value and whether
    it is shown with the mark [(new)]. *)
Module CommandItem.
Record t := mk { value : string; isNew : bool }.
End CommandItem.

(** The entries of the add-environment dialog, from [queryData.environments]
    and the text typed into the input. *)
Definition addEnvItems (environments : list string) (addEnvInput : string)
    : list CommandItem.t :=
  let currentEnvs := newSet environments in
  let addEnvValues := currentEnvs in
  let addEnvValues :=
    if bool_decide (addEnvInput = EmptyString) then addEnvValues
    else setAdd addEnvValues addEnvInput in
  (fun envName =>
     CommandItem.mk envName (negb (bool_decide (envName ∈ currentEnvs))))
    <$> addEnvValues.

(** ** [ResourcesTable.tsx] *)

(** [Resource], as far as the table reads it. *)
Module Resource.
Record t := mk { id : ResourceId; first_seen_at : string; last_seen_at : string }.
End Resource.

(** [id.at(-1)?.type], or the empty string. *)
Definition getType (id : ResourceId) : string :=
  match last id with
  | Some lastPart => ResourceIdPart.type lastPart
  | None => EmptyString
  end.

(** A rendered [TableRow]: its key, its [data-state] and whether the
    [scrollIntoView] callback is its [ref]. *)
Module TableRow.
Record t := mk { key : string; dataState : option string; ref : bool }.
End TableRow.

(** The body rows, from the sorted rows given as pairs of [row.id] and
    [row.getIsSelected()]; the flag [firstSelectedRowSeen] is threaded
    through the [map]. *)
Definition renderRows (rows : list (string * bool)) : list TableRow.t :=
  (foldl (fun state row =>
            let '(firstSelectedRowSeen, rendered) := state in
            let attach := row.2 && negb firstSelectedRowSeen in
            (firstSelectedRowSeen || attach,
             rendered ++
               [TableRow.mk row.1 (if row.2 then Some "selected" else None) attach]))
         (false, []) rows).2.

Module ResourcesTable.

(** The actions of this component carry no [refitView]. *)
Inductive Action :=
| SelectResource (resourceId : string)
| DeselectResource (resourceId : string).

Inductive Effect :=
| PosthogCapture (event : string) (properties : list (string * option string))
| QueryDataDispatch (action : Action).

(** [RowSelectionState], a [Record<string, boolean>]: its entries in the
    order of [Object.entries]. The keys are node ids, never array indices,
    so this is the order in which the keys were added. *)
Definition RowSelectionState := list (string * bool).

(** The own property [key] of [o], if it has one. *)
Fixpoint get (o : RowSelectionState) (key : string) : option bool :=
  match o with
  | [] => None
  | (k, v) :: o => if bool_decide (k = key) then Some v else get o key
  end.

(** The truthiness of [o[key]]: the value of an own property; [true] for a
    property inherited from [Object.prototype]; [false] for [undefined]. *)
Definition truthyAt (o : RowSelectionState) (key : string) : bool :=
  match get o key with
  | Some v => v
  | None => JS.inherited key
  end.

(** [o[key] = v] for a boolean [v]: an own property is overwritten and a
    new one added at the end, except that, without an own property of that
    name, assigning a boolean to [__proto__] calls the inherited setter,
    which ignores it. *)
Fixpoint set (o : RowSelectionState) (key : string) (v : bool) : RowSelectionState :=
  match o with
  | [] => if bool_decide (key = "__proto__") then [] else [(key, v)]
  | (k, w) :: o =>
      if bool_decide (k = key) then (k, v) :: o else (k, w) :: set o key v
  end.

(** The [reduce] over [Array.from(selectedResources)]. *)
Definition rowSelection (selectedResources : list string) : RowSelectionState :=
  foldl (fun rowSelection resourceId => set rowSelection resourceId true)
        [] selectedResources.

(** TanStack's [Updater<RowSelectionState>]: a value or a function. *)
Inductive Updater :=
| UpdaterValue (value : RowSelectionState)
| UpdaterFunction (f : RowSelectionState -> RowSelectionState).

(** [updater instanceof Function ? updater(rowSelection) : updater] *)
Definition newRowSelectionValue (selectedResources : list string)
    (updater : Updater) : RowSelectionState :=
  match updater with
  | UpdaterFunction f => f (rowSelection selectedResources)
  | UpdaterValue value => value
  end.

Section Table.

(** [nodeIdFromResourceId] and [typeIdFromResourceId] of [lib/utils]. *)
Variable nodeIdFromResourceId : ResourceId -> string.
Variable typeIdFromResourceId : ResourceId -> string.

(** The telemetry properties of a row: the type id of the first resource
    whose node id is [resourceId], if there is one. *)
Definition resourceTypeOf (resources : list Resource.t) (resourceId : string)
    : list (string * option string) :=
  let resource :=
    List.find (fun r => String.eqb (nodeIdFromResourceId (Resource.id r)) resourceId)
              resources in
  [("resource_type", (fun r => typeIdFromResourceId (Resource.id r)) <$> resource)].

Definition onRowSelectionChange (resources : list Resource.t)
    (selectedResources : list string) (updater : Updater) : list Effect :=
  let newRowSelectionValue := newRowSelectionValue selectedResources updater in
  let newSelectedResources :=
    (filter (fun entry => entry.2 = true) newRowSelectionValue).*1 in
  let effects : list Effect := [] in
  let effects :=
    foldl (fun effects resourceId =>
             if bool_decide (resourceId ∈ selectedResources) then effects
             else effects ++
                    [PosthogCapture "resources_table_row_selected"
                       (resourceTypeOf resources resourceId);
                     QueryDataDispatch (SelectResource resourceId)])
          effects newSelectedResources in
  foldl (fun effects resourceId =>
           if truthyAt newRowSelectionValue resourceId then effects
           else effects ++
                  [PosthogCapture "resources_table_row_deselected"
                     (resourceTypeOf resources resourceId);
                   QueryDataDispatch (DeselectResource resourceId)])
        effects selectedResources.

End Table.

(** The actions handed to [queryDataDispatch] in a list of effects. *)
Definition dispatched (effects : list Effect) : list Action :=
  omap (fun e => match e with QueryDataDispatch a => Some a | _ => None end) effects.

End ResourcesTable.

(** Whether the edge [id] is hovered after [events], given whether it is
    hovered [now]: the last event on the edge decides. *)
Fixpoint hoveredAfter (events : list (HoverEventType * Edge.t)) (id : string)
    (now : bool) : bool :=
  match events with
  | [] => now
  | event :: events =>
      hoveredAfter events id
        (if bool_decide (Edge.id event.2 = id)
         then match event.1 with mouseenter => true | mouseleave => false end
         else now)
  end.

(** The flag of the edge [id] in a map of edges; [false] without the edge. *)
Definition hoveredFlag (edges : gmap string Edge.t) (id : string) : bool :=
  match edges !! id with
  | Some edge => isEventChainHovered edge
  | None => false
  end.

(** The properties of a routed edge along the corner path. *)
Definition routedProps : EdgeProps.t :=
  EdgeProps.mk "e" None
    (Some (ELKEdgeData.mk "a" "b" (labelAtCorner 4%float)
             (Some (ElkEdgeSection.mk (XY.mk 0 0) (Some [XY.mk 10 0]) (XY.mk 10 10)))
             [] None))
    None.

(** The action and the telemetry event that belong to one selection change
    of an edge whose first event is [first]. *)
Definition edgeSelectionAction (change : string * bool) : QueryDataAction :=
  if change.2 then SelectEdge change.1 false else DeselectEdge change.1.

Definition edgeSelectionTelemetry (typeIdFromResourceId : ResourceId -> string)
    (first : option ResourceEvent.t) (selected : bool) : Effect :=
  PosthogCapture
    (if selected then "graph_event_selected" else "graph_event_deselected")
    [("principal_type", typeIdFromResourceId <$> (ResourceEvent.principal <$> first));
     ("event_type", ResourceEvent.type <$> first);
     ("resource_type", typeIdFromResourceId <$> (ResourceEvent.resource <$> first))].

(** The rows rendered from [rows] on, with the flag [firstSelectedRowSeen]
    as it stands before them. *)
Fixpoint rowsFrom (firstSelectedRowSeen : bool) (rows : list (string * bool))
    : list TableRow.t :=
  match rows with
  | [] => []
  | row :: rows =>
      let attach := row.2 && negb firstSelectedRowSeen in
      TableRow.mk row.1 (if row.2 then Some "selected" else None) attach
        :: rowsFrom (firstSelectedRowSeen || attach) rows
  end.

(** [data] with another [collapsed] flag. *)
Definition withCollapsed (collapsed : bool) (data : ResourceNodeData.t)
    : ResourceNodeData.t :=
  ResourceNodeData.mk (ResourceNodeData.id data) (ResourceNodeData.numChildren data)
    collapsed (ResourceNodeData.resourceIssueIds data)
    (ResourceNodeData.highlighted data).

(** ** [QueryGraph.tsx]: the zoom controls

    [MIN_ZOOM] is the number that the literal [0.1] denotes, the double
    nearest to one tenth. *)
Definition MIN_ZOOM : float := 0x1.999999999999ap-4%float.
Definition MAX_ZOOM : float := 1%float.

(** [disabled={zoom >= MAX_ZOOM}] of the zoom-in button and
    [disabled={zoom <= MIN_ZOOM}] of the zoom-out button. *)
Definition zoomInDisabled (zoom : float) : bool := JS.geb zoom MAX_ZOOM.
Definition zoomOutDisabled (zoom : float) : bool := PrimFloat.leb zoom MIN_ZOOM.

(** * Properties *)

(** ** Numbers *)

Example endsWith_issues : JS.endsWith "/acct/1/issues" "/issues" = true.
Proof. reflexivity. Qed.

Example endsWith_short : JS.endsWith "issues" "/issues" = false.
Proof. reflexivity. Qed.

Example falsy_zero_width : JS.falsy (Some 0%float) = true.
Proof. reflexivity. Qed.

Example edgeClassName_plain :
  edgeClassName None None = "opacity-40 stroke-foreground dark:stroke-primary".
Proof. reflexivity. Qed.

Example edgeClassName_selected_hovered :
  edgeClassName (Some true) (Some true)
  = "stroke-hover stroke-[2px] stroke-primary stroke-[2px] opacity-80 stroke-[3px] opacity-100".
Proof. reflexivity. Qed.

(** Without a covering segment the running minimum stays [Infinity]. *)
Example label_not_covered :
  calculateClosestPathMidpoint (Label.mk None (Some 20) (Some 5) (Some 1))%float cornerPath
  = Some infinity.
Proof. reflexivity. Qed.

(** A selection change for a node that is not in the node map throws before
    anything is emitted. *)
Example onNodesChange_unknown_node :
  onNodesChange sampleTypeId sampleNodes [SelectionChange "Z" true] = ([], None).
Proof. reflexivity. Qed.

Example hover_enter_leave :
  handleEdgeHover mouseleave (Edge.mk "A" "s" "t" None None)
    (handleEdgeHover mouseenter (Edge.mk "B" "s" "t" None None)
       (handleEdgeHover mouseenter (Edge.mk "A" "s" "t" None None) []))
  = ["B"].
Proof. reflexivity. Qed.

Lemma float_5_ne_0 : 5%float ≠ 0%float.
Proof.
  intros H.
  assert (K : PrimFloat.eqb 5 0 = true) by (rewrite H; reflexivity).
  discriminate K.
Qed.

(** ** Edge geometry *)

Lemma push_all {A B} (f : A -> B) (l : list A) (acc : list B) :
  foldl (fun segments a => segments ++ [f a]) acc l = acc ++ (f <$> l).
Proof.
  revert acc. induction l as [|a l IH]; intros acc; simpl.
  - by rewrite app_nil_r.
  - rewrite IH. by rewrite <- app_assoc.
Qed.

Lemma pathCommands_eq section :
  pathCommands section =
    MoveTo (XY.mk (XY.x (ElkEdgeSection.startPoint section) - ISSUE_BADGE_SIZE / 2)%float
                  (XY.y (ElkEdgeSection.startPoint section)))
    :: (LineTo <$> default [] (ElkEdgeSection.bendPoints section))
    ++ [LineTo (ElkEdgeSection.endPoint section)].
Proof. unfold pathCommands. by rewrite push_all. Qed.

(** C1, as stated, fails: with [width: 0] the function does not return [0]. *)
Lemma zero_width_label_not_zero :
  calculateClosestPathMidpoint (labelAtCorner 0%float) cornerPath ≠ Some 0%float.
Proof.
  vm_compute. intros H. apply float_5_ne_0. congruence.
Qed.

(** C1 (amended). On the path [(0,0), (10,0), (10,10)] and the label
    [{x: 10, width: 0, y: 5}] the guard on falsy fields treats the zero width
    like a missing one and returns [label.y = 5] unchanged. With any width
    that is not falsy, both segments cover the label, the candidate values
    [0] and [10] are both at distance [5] from [label.y], and the first value
    met, [0], is the result. *)
Theorem corner_label_tie_break (width : float) :
  JS.falsyNumber width = false ->
  calculateClosestPathMidpoint (labelAtCorner 0%float) cornerPath = Some 5%float
  ∧ segmentCovers 10%float width (XY.mk 0 0) (XY.mk 10 0) = true
  ∧ segmentCovers 10%float width (XY.mk 10 0) (XY.mk 10 10) = true
  ∧ PrimFloat.abs (0 - 5) = 5%float
  ∧ PrimFloat.abs (10 - 5) = 5%float
  ∧ closerY 5%float 0%float 10%float = 0%float
  ∧ calculateClosestPathMidpoint (labelAtCorner width) cornerPath = Some 0%float.
Proof.
  intros Hw.
  assert (Hc1 : segmentCovers 10%float width (XY.mk 0 0) (XY.mk 10 0) = true)
    by reflexivity.
  assert (Hc2 : segmentCovers 10%float width (XY.mk 10 0) (XY.mk 10 10) = true)
    by reflexivity.
  repeat split; try reflexivity.
  unfold calculateClosestPathMidpoint, labelAtCorner, cornerPath.
  cbn [Label.x Label.y Label.width]. cbv iota beta.
  replace (JS.falsyNumber 10) with false by reflexivity.
  replace (JS.falsyNumber 5) with false by reflexivity.
  rewrite Hw. cbn [orb].
  unfold scanSegments. rewrite Hc1, Hc2. reflexivity.
Qed.

Lemma corner_label_tie_break_witness :
  calculateClosestPathMidpoint (labelAtCorner 0%float) cornerPath = Some 5%float
  ∧ calculateClosestPathMidpoint (labelAtCorner 1%float) cornerPath = Some 0%float.
Proof.
  destruct (corner_label_tie_break 1%float) as (H1 & _ & _ & _ & _ & _ & H2);
    [reflexivity | split; assumption].
Defined.

(** C7. The path of a routed section visits the start point moved left by
    half the issue badge size ([26 / 2 = 13]), then the bend points, then the
    end point; only the x coordinate of the first vertex is changed. An
    absent [bendPoints] counts as no bend points. *)
Theorem path_vertices (section : ElkEdgeSection.t) :
  commandPoint <$> pathCommands section =
    [XY.mk (XY.x (ElkEdgeSection.startPoint section) - 13)%float
           (XY.y (ElkEdgeSection.startPoint section))]
    ++ default [] (ElkEdgeSection.bendPoints section)
    ++ [ElkEdgeSection.endPoint section]
  ∧ ISSUE_BADGE_SIZE = 26%float
  ∧ (ISSUE_BADGE_SIZE / 2 = 13)%float.
Proof.
  split; [|split; reflexivity].
  rewrite pathCommands_eq. simpl. f_equal.
  rewrite fmap_app. simpl. f_equal.
  rewrite <- list_fmap_compose. apply list_fmap_id.
Qed.

(** C8. An edge with data but without a section renders nothing: the
    component returns [null], and does so without an error. *)
Theorem unrouted_edge_renders_nothing (numberToString : float -> string)
    (props : EdgeProps.t) (data : ELKEdgeData.t) :
  EdgeProps.data props = Some data ->
  ELKEdgeData.section data = None ->
  ELKEdge numberToString props = None.
Proof. intros Hd Hs. unfold ELKEdge. by rewrite Hd, Hs. Qed.

Lemma unrouted_edge_renders_nothing_witness :
  ELKEdge (fun _ => "0") (EdgeProps.mk "e" None (Some unroutedData) None) = None.
Proof.
  apply (unrouted_edge_renders_nothing _ _ unroutedData); reflexivity.
Defined.

(** ** Drag/click recovery *)

Lemma last_cons_default {A} (l : list A) (a d : A) :
  List.last (a :: l) d = List.last l a.
Proof.
  revert a d. induction l as [|b l IH]; intros a d; [reflexivity|].
  change (List.last (a :: b :: l) d) with (List.last (b :: l) d).
  by rewrite (IH b d), (IH b a).
Qed.

Section GestureProperties.

Variable Element : Type.
Variable elementFromPoint : float -> float -> option Element.

Local Abbreviation handler := (dragClickHandler elementFromPoint).
Local Abbreviation run := (dragClickRun elementFromPoint).

Lemma run_app events1 events2 g :
  run (events1 ++ events2) g =
    ((run events2 (run events1 g).1).1,
     (run events1 g).2 ++ (run events2 (run events1 g).1).2).
Proof.
  unfold dragClickRun. rewrite foldl_app.
  generalize (foldl (fun acc event =>
                let '(g', clicks) := handler event acc.1 in (g', acc.2 ++ clicks))
              (g, []) events1).
  intros [g1 clicks1]. simpl.
  assert (Hgen : forall clicks0 g0,
    foldl (fun acc event =>
             let '(g', clicks) := handler event acc.1 in (g', acc.2 ++ clicks))
          (g0, clicks0) events2 =
    ((foldl (fun acc event =>
               let '(g', clicks) := handler event acc.1 in (g', acc.2 ++ clicks))
            (g0, []) events2).1,
     clicks0 ++ (foldl (fun acc event =>
               let '(g', clicks) := handler event acc.1 in (g', acc.2 ++ clicks))
            (g0, []) events2).2)).
  { induction events2 as [|e es IH]; intros clicks0 g0; simpl.
    - by rewrite app_nil_r.
    - destruct (handler e g0) as [g' cl]. simpl.
      rewrite (IH (clicks0 ++ cl)), (IH cl). simpl. by rewrite app_assoc. }
  apply Hgen.
Qed.

Lemma run_moves moves last acc :
  run (mouseEvent mousemove <$> moves) (Gesture.mk (Some last) acc) =
    (Gesture.mk (Some (List.last moves last)) (pathLength last moves acc), []).
Proof.
  revert last acc. induction moves as [|p moves IH]; intros last acc.
  - reflexivity.
  - change (mouseEvent mousemove <$> p :: moves)
      with ([mouseEvent mousemove p] ++ (mouseEvent mousemove <$> moves)).
    rewrite run_app.
    change (run [mouseEvent mousemove p] (Gesture.mk (Some last) acc))
      with (Gesture.mk (Some (XY.mk (XY.x p) (XY.y p)))
                       (acc + segmentLength last p)%float, @nil (DomEffect Element)).
    destruct p as [px py]. cbn [fst snd XY.x XY.y]. rewrite IH.
    cbn [fst snd app]. by rewrite last_cons_default.
Qed.

Lemma pathLength_snoc moves from release acc :
  pathLength from (moves ++ [release]) acc =
    (pathLength from moves acc + segmentLength (List.last moves from) release)%float.
Proof.
  revert from acc. induction moves as [|p moves IH]; intros from acc.
  - reflexivity.
  - rewrite last_cons_default. simpl. apply IH.
Qed.

(** The clicks dispatched by a release at [(x, y)] when the accumulated
    distance, the last segment included, is [total]. *)
Lemma release_step g last x y :
  Gesture.lastMouseCoords g = Some last ->
  handler (Some (MoveEvent.mk mouseup x y)) g =
    (Gesture.mk None 0%float,
     if PrimFloat.ltb (Gesture.distanceMoved g + segmentLength last (XY.mk x y))%float
                      5%float
     then match elementFromPoint x y with
          | Some element => [DispatchClick element x y]
          | None => []
          end
     else []).
Proof. intros Hlast. unfold dragClickHandler. simpl. by rewrite Hlast. Qed.

Lemma gesture_run start moves release g0 :
  run (gestureEvents start moves release) g0 =
    (Gesture.mk None 0%float,
     if PrimFloat.ltb (pathLength start (moves ++ [release]) 0%float) 5%float
     then match elementFromPoint (XY.x release) (XY.y release) with
          | Some element => [DispatchClick element (XY.x release) (XY.y release)]
          | None => []
          end
     else []).
Proof.
  unfold gestureEvents. rewrite run_app.
  change (run [mouseEvent mousedown start] g0)
    with (Gesture.mk (Some (XY.mk (XY.x start) (XY.y start))) 0%float,
          @nil (DomEffect Element)).
  cbn [fst snd app]. rewrite run_app, run_moves. cbn [fst snd app].
  unfold dragClickRun. cbn [foldl fst snd app]. unfold mouseEvent at 1 2.
  rewrite (release_step _ (List.last moves (XY.mk (XY.x start) (XY.y start))))
    by reflexivity.
  cbn [fst snd Gesture.distanceMoved]. rewrite pathLength_snoc.
  by destruct start, release.
Qed.

(** When no gesture is in progress, the module is in its initial state. *)
Lemma idle_is_initial g :
  gestureReachable elementFromPoint g ->
  Gesture.lastMouseCoords g = None -> g = gestureInit.
Proof.
  induction 1 as [|g event Hreach IH]; [done|].
  unfold dragClickHandler.
  destruct event as [[type x y]|]; [|exact IH].
  destruct type; cbn [MoveEvent.type fst]; try done;
    destruct (Gesture.lastMouseCoords g) eqn:Hlast; cbn [fst]; try done;
    intros _; apply IH; done.
Qed.

Lemma release_clears g x y :
  gestureReachable elementFromPoint g ->
  (handler (Some (MoveEvent.mk mouseup x y)) g).1 = Gesture.mk None 0%float.
Proof.
  intros Hreach.
  destruct (Gesture.lastMouseCoords g) as [last|] eqn:Hlast.
  - by rewrite (release_step _ last).
  - rewrite (idle_is_initial g Hreach Hlast). reflexivity.
Qed.

(** C4. A gesture that starts at [start], moves through [moves] and is
    released at [release] dispatches a click at the release position exactly
    when the accumulated distance is strictly below [5] and an element is
    found there, and otherwise dispatches nothing. From [(0,0)] to [(3,4)]
    the distance is exactly [5] and no click is made; a gesture that never
    leaves [(0,0)] is a click. After a release the stored position is cleared
    and the distance is [0] again, in the gesture and in every state the
    module can be in. *)
Theorem release_click_iff (g0 g : Gesture.t) (start release : XY.t)
    (moves : list XY.t) :
  gestureReachable elementFromPoint g ->
  let total := pathLength start (moves ++ [release]) 0%float in
  let outcome := run (gestureEvents start moves release) g0 in
  (∀ element,
     PrimFloat.ltb total 5%float = true ->
     elementFromPoint (XY.x release) (XY.y release) = Some element ->
     outcome.2 = [DispatchClick element (XY.x release) (XY.y release)])
  ∧ (PrimFloat.ltb total 5%float = false
     ∨ elementFromPoint (XY.x release) (XY.y release) = None ->
     outcome.2 = [])
  ∧ outcome.1 = Gesture.mk None 0%float
  ∧ (∀ x y, (handler (Some (MoveEvent.mk mouseup x y)) g).1 = Gesture.mk None 0%float)
  ∧ pathLength (XY.mk 0 0) [XY.mk 3 4] 0%float = 5%float
  ∧ (run (gestureEvents (XY.mk 0 0) [] (XY.mk 3 4)) g0).2 = []
  ∧ pathLength (XY.mk 0 0) [XY.mk 0 0; XY.mk 0 0; XY.mk 0 0] 0%float = 0%float
  ∧ (∀ element,
       elementFromPoint 0%float 0%float = Some element ->
       (run (gestureEvents (XY.mk 0 0) [XY.mk 0 0; XY.mk 0 0] (XY.mk 0 0)) g0).2
         = [DispatchClick element 0%float 0%float]).
Proof.
  intros Hreach total outcome. subst total outcome.
  rewrite !gesture_run. cbn [fst snd].
  repeat split.
  - intros element Hlt Hel. by rewrite Hlt, Hel.
  - intros [Hlt|Hel]; [by rewrite Hlt|].
    rewrite Hel. by destruct (PrimFloat.ltb _ _).
  - intros x y. by apply release_clears.
  - intros element Hel. cbn [XY.x XY.y]. rewrite Hel. reflexivity.
Qed.

End GestureProperties.

Lemma release_click_iff_witness :
  (dragClickRun hitEverywhere
     (gestureEvents (XY.mk 0 0) [XY.mk 1 1] (XY.mk 3 3)) gestureInit).2
    = [DispatchClick 7 3%float 3%float]
  ∧ (dragClickHandler hitEverywhere (Some (MoveEvent.mk mouseup 3 4)) gestureInit).1
    = Gesture.mk None 0%float.
Proof.
  destruct (release_click_iff nat hitEverywhere gestureInit gestureInit
              (XY.mk 0 0) (XY.mk 3 3) [XY.mk 1 1] (reach_init nat hitEverywhere))
    as (Hclick & _ & _ & Hclear & _).
  split; [apply Hclick; reflexivity | apply Hclear].
Defined.

(** ** One gesture state for all canvases *)

(** C2, as stated, fails: a press on canvas [1] changes the classifier state
    of canvas [2]. *)
Lemma gesture_state_not_per_canvas :
  ¬ (∀ (page : Page.t) (c1 c2 : nat) (event : option MoveEvent.t),
       c1 ≠ c2 ->
       is_Some (Page.mounted page !! c1) ->
       is_Some (Page.mounted page !! c2) ->
       classifierState c2 (canvasMoveEvent hitEverywhere c1 event page).1
         = classifierState c2 page).
Proof.
  intros Hframe.
  specialize (Hframe twoCanvasPage 1 2 (Some (MoveEvent.mk mousedown 1 2))).
  assert (Hchanged :
    Gesture.lastMouseCoords
      (classifierState 2
         (canvasMoveEvent hitEverywhere 1 (Some (MoveEvent.mk mousedown 1 2))
            twoCanvasPage).1) = Some (XY.mk 1 2)) by reflexivity.
  rewrite Hframe in Hchanged; [discriminate Hchanged|done|by eexists|by eexists].
Qed.

(** C2 (amended). The gesture classifier keeps its state in the module's two
    variables, once for the page: all mounted canvases work on the same
    state, and a pointer event processed for one mounted canvas advances the
    state of every other one by that event. *)
Theorem gesture_state_shared {Element : Type}
    (elementFromPoint : float -> float -> option Element)
    (page : Page.t) (c1 c2 : nat) (event : option MoveEvent.t) :
  is_Some (Page.mounted page !! c1) ->
  classifierState c1 page = classifierState c2 page
  ∧ classifierState c2 (canvasMoveEvent elementFromPoint c1 event page).1
    = (dragClickHandler elementFromPoint event (classifierState c2 page)).1.
Proof.
  intros [canvas Hc1]. split; [reflexivity|].
  unfold canvasMoveEvent, classifierState. rewrite Hc1.
  by destruct (dragClickHandler elementFromPoint event (Page.moduleGesture page)).
Qed.

Lemma gesture_state_shared_witness :
  classifierState 2
    (canvasMoveEvent hitEverywhere 1 (Some (MoveEvent.mk mousedown 1 2))
       twoCanvasPage).1
  = Gesture.mk (Some (XY.mk 1 2)) 0%float.
Proof.
  destruct (gesture_state_shared hitEverywhere twoCanvasPage 1 2
              (Some (MoveEvent.mk mousedown 1 2))) as [_ Hstep].
  - by eexists.
  - rewrite Hstep. reflexivity.
Defined.

(** The hovered-edge set, in contrast, is per canvas. *)
Lemma hover_state_per_canvas page c1 c2 eventType edge :
  c1 ≠ c2 ->
  Page.mounted (canvasEdgeHover c1 eventType edge page) !! c2
    = Page.mounted page !! c2.
Proof. intros Hne. unfold canvasEdgeHover. simpl. by rewrite lookup_alter_ne. Qed.

(** ** Event-chain hover *)

Lemma build_bind_value {A B} (m : Build.t A) (k : A -> Build.t B) :
  (Build.bind m k).2 = match m.2 with
                       | Some a => (k a).2
                       | None => None
                       end.
Proof. unfold Build.bind. by destruct (m.2). Qed.

Lemma afterVisit_marked edges visited acc id :
  markedUpTo edges visited acc ->
  markedUpTo edges (visited ++ [id]) (afterVisit edges acc id).
Proof.
  intros Hacc k. unfold afterVisit.
  destruct (decide (k = id)) as [->|Hne].
  - rewrite (bool_decide_eq_true_2 (id ∈ visited ++ [id])) by set_solver.
    specialize (Hacc id).
    destruct (edges !! id) as [edge|] eqn:Hedge.
    + unfold visitedEdge. simpl.
      destruct (Edge.data edge) as [data|] eqn:Hdata.
      * by rewrite lookup_insert_eq.
      * rewrite Hacc. case_bool_decide; [|done].
        unfold visitedEdge. simpl. by rewrite Hdata.
    + rewrite Hacc. by case_bool_decide.
  - assert (Hsame : bool_decide (k ∈ visited ++ [id]) = bool_decide (k ∈ visited)).
    { apply bool_decide_ext. rewrite elem_of_app, list_elem_of_singleton. tauto. }
    rewrite Hsame, <- (Hacc k).
    destruct (edges !! id) as [edge|]; [|done].
    destruct (Edge.data edge); [|done].
    by rewrite lookup_insert_ne.
Qed.

Lemma afterVisits_marked edges ids visited acc :
  markedUpTo edges visited acc ->
  markedUpTo edges (visited ++ ids) (foldl (afterVisit edges) acc ids).
Proof.
  revert visited acc. induction ids as [|id ids IH]; intros visited acc Hacc.
  - by rewrite app_nil_r.
  - simpl. replace (visited ++ id :: ids) with ((visited ++ [id]) ++ ids)
      by (by rewrite <- app_assoc).
    apply IH. by apply afterVisit_marked.
Qed.

Lemma markChainEdge_value edges acc id :
  (markChainEdge edges acc id).2 = Some (afterVisit edges acc id).
Proof.
  unfold markChainEdge, afterVisit, JS.read.
  destruct (edges !! id) as [edge|].
  - by destruct (Edge.data edge).
  - by destruct (JS.inherited id).
Qed.

Lemma markChainEdges_value edges ids acc :
  (Build.forOf (markChainEdge edges) acc ids).2
  = Some (foldl (afterVisit edges) acc ids).
Proof.
  revert acc. induction ids as [|id ids IH]; intros acc; [done|].
  cbn [Build.forOf foldl]. by rewrite build_bind_value, markChainEdge_value, IH.
Qed.

Lemma markHoveredEdge_value edges (links : gmap string Links.t) acc edgeId :
  (markHoveredEdge edges links acc edgeId).2
  = if throwsAt links edgeId then None
    else Some (foldl (afterVisit edges) acc
                 match links !! edgeId with
                 | None => []
                 | Some l => eventChainEdgeIds edgeId l
                 end).
Proof.
  unfold markHoveredEdge, throwsAt, JS.read.
  destruct (links !! edgeId) as [l|].
  - unfold mbind, build_bind. by rewrite build_bind_value, markChainEdges_value.
  - by destruct (JS.inherited edgeId).
Qed.

Lemma markHoveredEdges_marked edges links hovered visited acc :
  markedUpTo edges visited acc ->
  completes links hovered ->
  ∃ result,
    (Build.forOf (markHoveredEdge edges links) acc hovered).2 = Some result
    ∧ markedUpTo edges (visited ++ visitedIds hovered links) result.
Proof.
  revert visited acc.
  induction hovered as [|h hovered IH]; intros visited acc Hacc Hcompletes.
  - exists acc. split; [done|]. unfold visitedIds. simpl. by rewrite app_nil_r.
  - cbn [Build.forOf]. rewrite build_bind_value, markHoveredEdge_value.
    rewrite (Hcompletes h) by apply list_elem_of_here.
    change (visitedIds (h :: hovered) links)
      with (match links !! h with
            | None => []
            | Some l => eventChainEdgeIds h l
            end ++ visitedIds hovered links).
    rewrite app_assoc. apply IH.
    + by apply afterVisits_marked.
    + intros h' Hh'. apply Hcompletes. by apply list_elem_of_further.
Qed.

Lemma markHoveredEdges_throw edges links hovered acc edgeId :
  edgeId ∈ hovered ->
  throwsAt links edgeId = true ->
  (Build.forOf (markHoveredEdge edges links) acc hovered).2 = None.
Proof.
  revert acc. induction hovered as [|h hovered IH]; intros acc Hin Hthrows.
  - by apply elem_of_nil in Hin.
  - cbn [Build.forOf]. rewrite build_bind_value, markHoveredEdge_value.
    destruct (throwsAt links h) eqn:Hh; [done|].
    apply IH; [|done].
    apply elem_of_cons in Hin as [->|Hin]; [|done]. congruence.
Qed.

Lemma edgesWithHovered_forOf hovered edges links :
  edgesWithHovered hovered edges links
  = (Build.forOf (markHoveredEdge edges links) edges hovered).2.
Proof.
  unfold edgesWithHovered, edgesWithHoveredRun, mbind, build_bind.
  by rewrite build_bind_value.
Qed.

(** When no round throws, the loops return the input map with the visited
    edges marked. *)
Lemma edgesWithHovered_lookup hovered edges links :
  completes links hovered ->
  ∃ result,
    edgesWithHovered hovered edges links = Some result
    ∧ ∀ id, result !! id =
              if bool_decide (id ∈ visitedIds hovered links)
              then visitedEdge <$> edges !! id
              else edges !! id.
Proof.
  intros Hcompletes. rewrite edgesWithHovered_forOf.
  apply (markHoveredEdges_marked edges links hovered [] edges); [|done].
  intros k. by rewrite bool_decide_eq_false_2 by set_solver.
Qed.

(** When a round throws, the computation throws. *)
Lemma edgesWithHovered_throws hovered edges links edgeId :
  edgeId ∈ hovered ->
  throwsAt links edgeId = true ->
  edgesWithHovered hovered edges links = None.
Proof.
  intros Hin Hthrows. rewrite edgesWithHovered_forOf.
  by apply (markHoveredEdges_throw _ _ _ _ edgeId).
Qed.

Lemma visitedIds_inEventChain hovered links id :
  id ∈ visitedIds hovered links ↔ inEventChain hovered links id.
Proof.
  unfold visitedIds, inEventChain. rewrite list_elem_of_bind. split.
  - intros (h & Hid & Hh). destruct (links !! h) as [l|] eqn:Hl; [|set_solver].
    by exists h, l.
  - intros (h & l & Hh & Hl & Hid). exists h. by rewrite Hl.
Qed.

Lemma edgesArray_nonempty hovered edges links :
  hovered ≠ [] ->
  edgesArray hovered edges links
    = JS.Object_values <$> edgesWithHovered hovered edges links.
Proof.
  intros Hne. unfold edgesArray, edgesArrayRun, edgesWithHovered.
  rewrite bool_decide_eq_false_2 by (by destruct hovered).
  unfold mbind, build_bind. rewrite build_bind_value.
  by destruct ((edgesWithHoveredRun hovered edges links).2).
Qed.

(** C5, as stated, fails: the hovered edge [C] is in the edge map and in its
    own event chain, but it has no data and is not marked: the edges come
    back as they were. *)
Lemma hovered_edge_without_data_not_marked :
  inEventChain ["C"] sampleLinks "C"
  ∧ is_Some (sampleEdges !! "C")
  ∧ edgesWithHovered ["C"] sampleEdges sampleLinks = Some sampleEdges
  ∧ hoveredFlag sampleEdges "C" = false.
Proof.
  split; [|split; [|split]].
  - exists "C", (Links.mk [] []).
    split; [apply list_elem_of_here|]. split; [reflexivity|apply list_elem_of_here].
  - by eexists.
  - reflexivity.
  - reflexivity.
Qed.

(** C5 (amended). For a non-empty hovered set in which every id has a link
    entry of its own or does not name a property that plain objects
    inherit, the computation returns the edges of the input map, where each
    id in the event chain (a hovered id with a link entry, or an id listed
    by that entry) that is in the map with its data present is replaced by
    a copy with [eventChainHovered = true] and otherwise equal fields. Ids
    absent from the map stay absent, without an error; edges without data
    and edges outside the event chain pass through unmodified, so nothing
    beyond one hop is marked. *)
Theorem hover_marks_one_hop (hovered : list string)
    (edges : gmap string Edge.t) (links : gmap string Links.t) :
  hovered ≠ [] ->
  completes links hovered ->
  ∃ result,
    edgesWithHovered hovered edges links = Some result
    ∧ edgesArray hovered edges links = Some (JS.Object_values result)
    ∧ (∀ id edge data,
         inEventChain hovered links id ->
         edges !! id = Some edge -> Edge.data edge = Some data ->
         result !! id = Some (withEventChainHovered edge data)
         ∧ isEventChainHovered (withEventChainHovered edge data) = true
         ∧ withEventChainHovered edge data
           = Edge.mk (Edge.id edge) (Edge.source edge) (Edge.target edge)
               (Edge.selected edge)
               (Some (ELKEdgeData.mk
                        (ELKEdgeData.originalSourceId data)
                        (ELKEdgeData.originalTargetId data)
                        (ELKEdgeData.label data) (ELKEdgeData.section data)
                        (ELKEdgeData.events data) (Some true))))
    ∧ (∀ id edge,
         edges !! id = Some edge -> Edge.data edge = None ->
         result !! id = Some edge)
    ∧ (∀ id, ¬ inEventChain hovered links id -> result !! id = edges !! id)
    ∧ (∀ id, edges !! id = None -> result !! id = None).
Proof.
  intros Hne Hcompletes.
  destruct (edgesWithHovered_lookup hovered edges links Hcompletes)
    as (result & Hresult & Hlookup).
  exists result. split; [done|].
  split; [by rewrite edgesArray_nonempty, Hresult|].
  split; [|split; [|split]].
  - intros id edge data Hin Hedge Hdata. split; [|done].
    rewrite Hlookup, bool_decide_eq_true_2
      by (by apply visitedIds_inEventChain).
    rewrite Hedge. unfold visitedEdge. simpl. by rewrite Hdata.
  - intros id edge Hedge Hdata. rewrite Hlookup, Hedge.
    case_bool_decide; [|done]. unfold visitedEdge. simpl. by rewrite Hdata.
  - intros id Hout. rewrite Hlookup, bool_decide_eq_false_2; [done|].
    by rewrite visitedIds_inEventChain.
  - intros id Hedge. rewrite Hlookup, Hedge. by case_bool_decide.
Qed.

Lemma hover_marks_one_hop_witness :
  ∃ result,
    edgesWithHovered ["A"] sampleEdges sampleLinks = Some result
    ∧ isEventChainHovered <$> result !! "B" = Some true
    ∧ result !! "gone" = None.
Proof.
  destruct (hover_marks_one_hop ["A"] sampleEdges sampleLinks)
    as (result & Hresult & _ & Hmark & _ & _ & Habsent); [done| |].
  - intros h Hin. apply elem_of_cons in Hin as [->|Hin]; [reflexivity|].
    by apply elem_of_nil in Hin.
  - exists result. split; [done|]. split.
    + destruct (Hmark "B" (Edge.mk "B" "n2" "n3" None (Some (sampleData "n2" "n3")))
                  (sampleData "n2" "n3")) as (-> & _); [|done|done|done].
      exists "A", (Links.mk [] ["B"; "gone"]).
      split; [apply list_elem_of_here|]. split; [reflexivity|].
      apply list_elem_of_further, list_elem_of_here.
    + by apply Habsent.
Defined.

Lemma hover_enter_then_leave (edge : Edge.t) :
  handleEdgeHover mouseleave edge (handleEdgeHover mouseenter edge []) = [].
Proof.
  unfold handleEdgeHover, setAdd, setDelete.
  rewrite bool_decide_eq_false_2 by apply not_elem_of_nil.
  simpl. rewrite filter_cons_False by (intros Hne; by apply Hne). reflexivity.
Qed.

(** C6, as stated, fails: with no hovered edge the computation does not hand
    back the map itself; it constructs an array. *)
Lemma empty_hover_builds_array :
  (edgesArrayRun [] sampleEdges sampleLinks).1 ≠ [].
Proof. discriminate. Qed.

(** C6 (amended). With no hovered edge, for every edge map and link table,
    the computation returns a newly built array of the values of the map,
    which are the edges of the map as they are, every one of them and
    nothing else, and it constructs nothing besides that array: no copy of
    the map and no copy of an edge. This is also so once the only hovered
    edge is left. With a hovered edge, in contrast, the first thing
    constructed is the copy of the map. *)
Theorem hover_empty_identity (edges : gmap string Edge.t)
    (links : gmap string Links.t) (hovered : list string) :
  edgesArrayRun [] edges links = ([ValuesArray], Some (JS.Object_values edges))
  ∧ (∀ edge, edge ∈ JS.Object_values edges ↔ ∃ id, edges !! id = Some edge)
  ∧ (∀ edge,
       edgesArrayRun (handleEdgeHover mouseleave edge
                        (handleEdgeHover mouseenter edge [])) edges links
       = ([ValuesArray], Some (JS.Object_values edges)))
  ∧ (if bool_decide (length hovered = 0) then True
     else ∃ rest, (edgesArrayRun hovered edges links).1 = SpreadEdges :: rest).
Proof.
  split; [reflexivity|]. split; [|split].
  - intros edge. unfold JS.Object_values. rewrite list_elem_of_fmap. split.
    + intros ([id e] & -> & Hin). exists id. by apply elem_of_map_to_list.
    + intros (id & Hid). exists (id, edge). split; [done|].
      by apply elem_of_map_to_list.
  - intros edge. by rewrite hover_enter_then_leave.
  - unfold edgesArrayRun. case_bool_decide; [done|].
    unfold edgesWithHoveredRun, mbind, build_bind, Build.bind at 1 2.
    cbn [fst snd Build.alloc app].
    destruct (Build.forOf _ _ _).2; cbn [fst snd app]; by eexists.
Qed.

(** C10. A hovered id that is in the edge map, has no link entry and does
    not name a property that plain objects inherit marks nothing: its round
    of the loop constructs nothing and leaves the map as it is, so hovering
    it alone returns the edges unchanged, the hovered edge included; in any
    hovered set without a throwing id its edge is unmodified unless the
    entry of another hovered id lists it. For an id that names an inherited
    property, such as [constructor], the guard lets the inherited value
    pass and the round throws a [TypeError]. *)
Theorem hovered_without_links_marks_nothing (hovered : list string)
    (edges acc : gmap string Edge.t) (links : gmap string Links.t)
    (edgeId : string) (edge : Edge.t) :
  edges !! edgeId = Some edge ->
  links !! edgeId = None ->
  if JS.inherited edgeId
  then markHoveredEdge edges links acc edgeId = ([], None)
       ∧ edgesWithHovered [edgeId] edges links = None
       ∧ edgesArray [edgeId] edges links = None
  else markHoveredEdge edges links acc edgeId = ([], Some acc)
       ∧ edgesWithHovered [edgeId] edges links = Some edges
       ∧ edgesArray [edgeId] edges links = Some (JS.Object_values edges)
       ∧ (completes links hovered ->
          (∀ other l, other ∈ hovered -> links !! other = Some l ->
             edgeId ∉ eventChainEdgeIds other l) ->
          ∃ result, edgesWithHovered hovered edges links = Some result
                    ∧ result !! edgeId = Some edge).
Proof.
  intros Hedge Hlinks.
  assert (Hround : ∀ m, markHoveredEdge edges links m edgeId
                        = ([], if JS.inherited edgeId then None else Some m)).
  { intros m. unfold markHoveredEdge, JS.read. rewrite Hlinks.
    by destruct (JS.inherited edgeId). }
  assert (Hone : edgesWithHovered [edgeId] edges links
                 = if JS.inherited edgeId then None else Some edges).
  { rewrite edgesWithHovered_forOf. cbn [Build.forOf].
    rewrite build_bind_value, Hround. by destruct (JS.inherited edgeId). }
  assert (Harray : edgesArray [edgeId] edges links
                   = JS.Object_values <$> edgesWithHovered [edgeId] edges links)
    by (by apply edgesArray_nonempty).
  rewrite Harray, Hone, Hround.
  destruct (JS.inherited edgeId); [done|].
  do 3 (split; [done|]).
  intros Hcompletes Hothers.
  destruct (edgesWithHovered_lookup hovered edges links Hcompletes)
    as (result & Hresult & Hlookup).
  exists result. split; [done|].
  rewrite Hlookup, bool_decide_eq_false_2; [done|].
  rewrite visitedIds_inEventChain. intros (other & l & Hin & Hl & Hid).
  by apply (Hothers other l).
Qed.

Lemma hovered_without_links_marks_nothing_witness :
  edgesArray ["constructor"] constructorEdges ∅ = None
  ∧ edgesWithHovered ["B"] sampleEdges sampleLinks = Some sampleEdges.
Proof.
  split.
  - apply (hovered_without_links_marks_nothing [] constructorEdges constructorEdges
             ∅ "constructor"
             (Edge.mk "constructor" "n1" "n2" None (Some (sampleData "n1" "n2"))));
      reflexivity.
  - apply (hovered_without_links_marks_nothing [] sampleEdges sampleEdges
             sampleLinks "B"
             (Edge.mk "B" "n2" "n3" None (Some (sampleData "n2" "n3"))));
      reflexivity.
Defined.

(** ** Handler runs *)

Lemma forOf_effects {A} (l : list A) (body : A -> Run.t unit)
    (effects : A -> list Effect) :
  (∀ a, a ∈ l -> body a = (effects a, Some tt)) ->
  Run.forOf l body = (l ≫= effects, Some tt).
Proof.
  induction l as [|a l IH]; intros Hbody; [reflexivity|].
  simpl. unfold Run.bind.
  rewrite (Hbody a) by apply list_elem_of_here.
  rewrite IH by (intros b Hb; apply Hbody; by apply list_elem_of_further).
  reflexivity.
Qed.

Lemma dispatched_app effects1 effects2 :
  dispatched (effects1 ++ effects2) = dispatched effects1 ++ dispatched effects2.
Proof. unfold dispatched. apply omap_app. Qed.

Lemma navigations_app effects1 effects2 :
  navigations (effects1 ++ effects2) = navigations effects1 ++ navigations effects2.
Proof. unfold navigations. apply omap_app. Qed.

(** ** Selection changes *)

Section SelectionProperties.

Variable typeIdFromResourceId : ResourceId -> string.

Lemma onNodesChange_effects (nodes : gmap string Node.t) (changes : list Change) :
  (∀ change, change ∈ selectChanges changes -> is_Some (nodes !! change.1)) ->
  onNodesChange typeIdFromResourceId nodes changes =
    (selectChanges changes ≫= (fun change =>
       match nodes !! change.1 with
       | Some node =>
           [selectionTelemetry typeIdFromResourceId node change.2;
            QueryDataDispatch (selectionAction change)]
       | None => []
       end),
     Some tt).
Proof.
  intros Hnodes. unfold onNodesChange. apply forOf_effects.
  intros [id selected] Hin. destruct (Hnodes _ Hin) as [node Hnode].
  simpl in *. unfold Run.get. rewrite Hnode.
  by destruct selected.
Qed.

Lemma dispatched_selection (nodes : gmap string Node.t) (l : list (string * bool)) :
  (∀ change, change ∈ l -> is_Some (nodes !! change.1)) ->
  dispatched (l ≫= (fun change =>
       match nodes !! change.1 with
       | Some node =>
           [selectionTelemetry typeIdFromResourceId node change.2;
            QueryDataDispatch (selectionAction change)]
       | None => []
       end)) = selectionAction <$> l.
Proof.
  induction l as [|change l IH]; intros Hnodes; [reflexivity|].
  change ((change :: l) ≫= ?f) with (f change ++ (l ≫= f)).
  rewrite dispatched_app, IH
    by (intros c Hc; apply Hnodes; by apply list_elem_of_further).
  destruct (Hnodes change) as [node Hnode]; [apply list_elem_of_here|].
  by rewrite Hnode.
Qed.

(** C3 (amended). For a batch of node changes whose selection entries name
    nodes of the node map, the handler completes and emits, for each
    selection entry in batch order, first the telemetry event carrying the
    type id of the node's resource and then the action: [SelectResource] for
    a transition to selected, [DeselectResource] for one to deselected.
    There is exactly one action per selection entry and none for anything
    else, so the batch [[{id: A, selected: true}]] followed by
    [[{id: A, selected: false}]] dispatches [SelectResource A] and then
    [DeselectResource A], and nothing more. *)
Theorem selection_relay (nodes : gmap string Node.t) (changes : list Change) :
  (∀ change, change ∈ selectChanges changes -> is_Some (nodes !! change.1)) ->
  let run := onNodesChange typeIdFromResourceId nodes changes in
  run.2 = Some tt
  ∧ run.1 = selectChanges changes ≫= (fun change =>
       match nodes !! change.1 with
       | Some node =>
           [selectionTelemetry typeIdFromResourceId node change.2;
            QueryDataDispatch (selectionAction change)]
       | None => []
       end)
  ∧ dispatched run.1 = selectionAction <$> selectChanges changes
  ∧ (∀ node, nodes !! "A" = Some node ->
       (onNodesChange typeIdFromResourceId nodes [SelectionChange "A" true]).1
         ++ (onNodesChange typeIdFromResourceId nodes [SelectionChange "A" false]).1
       = [selectionTelemetry typeIdFromResourceId node true;
          QueryDataDispatch (SelectResource "A" false);
          selectionTelemetry typeIdFromResourceId node false;
          QueryDataDispatch (DeselectResource "A")]).
Proof.
  intros Hnodes run. subst run.
  rewrite onNodesChange_effects by done. cbn [fst snd].
  split; [done|]. split; [done|]. split; [by apply dispatched_selection|].
  intros node Hnode. unfold onNodesChange. simpl.
  unfold Run.bind, Run.get. rewrite Hnode. reflexivity.
Qed.

End SelectionProperties.

(** C3, as stated, fails: for a transition to selected the action is not
    emitted before the telemetry event. *)
Lemma select_action_not_before_telemetry :
  ¬ (∃ event properties,
       (onNodesChange sampleTypeId sampleNodes [SelectionChange "A" true]).1
       = [QueryDataDispatch (SelectResource "A" false);
          PosthogCapture event properties]).
Proof. intros (event & properties & Heffects). discriminate Heffects. Qed.

Lemma selection_relay_witness :
  dispatched
    (onNodesChange sampleTypeId sampleNodes
       [SelectionChange "A" true; OtherChange position "A";
        SelectionChange "A" false]).1
  = [SelectResource "A" false; DeselectResource "A"].
Proof.
  destruct (selection_relay sampleTypeId sampleNodes
              [SelectionChange "A" true; OtherChange position "A";
               SelectionChange "A" false]) as (_ & _ & Hactions & _).
  - intros change Hin. apply (bool_decide_unpack _).
    apply elem_of_cons in Hin as [->|Hin]; [reflexivity|].
    apply elem_of_cons in Hin as [->|Hin]; [reflexivity|].
    by apply elem_of_nil in Hin.
  - exact Hactions.
Defined.

(** ** The issue badge *)

Lemma endsWith_events_not_issues pathname :
  JS.endsWith pathname "/events" = true -> JS.endsWith pathname "/issues" = false.
Proof.
  unfold JS.endsWith. cbn [String.length].
  intros [_ Hev]%andb_prop. apply andb_false_intro2.
  apply String.eqb_eq in Hev. rewrite Hev. reflexivity.
Qed.

(** C9. A click on the issue badge of a node navigates to the issues view,
    unless the location already ends in it, in which case no navigation is
    made; and it dispatches exactly one [SelectIssue] per issue id of the
    node, in the order of the node's list of issue ids. *)
Theorem issue_badge_relay (typeIdFromResourceId : ResourceId -> string)
    (pathname : string) (data : ResourceNodeData.t) :
  let run := selectResourceIssues typeIdFromResourceId pathname data in
  run.2 = Some tt
  ∧ navigations run.1 =
      (if JS.endsWith pathname "/issues" then []
       else if JS.endsWith pathname "/events" then ["../issues"]
       else ["./issues"])
  ∧ dispatched run.1 =
      (fun issueId => SelectIssue issueId false)
        <$> ResourceNodeData.resourceIssueIds data.
Proof.
  intros run. subst run. unfold selectResourceIssues.
  rewrite (forOf_effects _ _ (fun issueId =>
             [QueryDataDispatch (SelectIssue issueId false)])) by done.
  assert (Hactions : ∀ l : list string,
    dispatched (l ≫= fun issueId => [QueryDataDispatch (SelectIssue issueId false)])
    = (fun issueId => SelectIssue issueId false) <$> l).
  { induction l as [|a l IH]; [reflexivity|]. simpl. f_equal. exact IH. }
  assert (Hnav : ∀ l : list string,
    navigations (l ≫= fun issueId => [QueryDataDispatch (SelectIssue issueId false)])
    = []).
  { induction l as [|a l IH]; [reflexivity|]. simpl. exact IH. }
  destruct (JS.endsWith pathname "/events") eqn:Hev.
  - rewrite (endsWith_events_not_issues _ Hev).
    unfold mbind, run_bind, Run.bind, Run.emit. cbn [fst snd].
    repeat split.
    + rewrite !navigations_app, Hnav. reflexivity.
    + rewrite !dispatched_app, Hactions. reflexivity.
  - destruct (JS.endsWith pathname "/issues") eqn:Hiss;
      unfold mbind, run_bind, Run.bind, Run.emit, Run.ret; cbn [fst snd negb];
      repeat split;
      rewrite ?navigations_app, ?dispatched_app, ?Hnav, ?Hactions; reflexivity.
Qed.

(** * Further properties *)

(** ** Drag/click recovery over event sequences *)

Section GestureSequences.

Variable Element : Type.
Variable elementFromPoint : float -> float -> option Element.

Local Abbreviation handler := (dragClickHandler elementFromPoint).
Local Abbreviation run := (dragClickRun elementFromPoint).

Lemma run_one event g : run [event] g = handler event g.
Proof.
  unfold dragClickRun. cbn [foldl fst snd app]. by destruct (handler event g).
Qed.

Lemma run_cons event events g :
  run (event :: events) g =
    ((run events (handler event g).1).1,
     (handler event g).2 ++ (run events (handler event g).1).2).
Proof.
  change (event :: events) with ([event] ++ events).
  by rewrite run_app, run_one.
Qed.

Lemma handler_click event g click :
  click ∈ (handler event g).2 ->
  ∃ x y element,
    event = Some (MoveEvent.mk mouseup x y)
    ∧ click = DispatchClick element x y
    ∧ elementFromPoint x y = Some element.
Proof.
  unfold dragClickHandler.
  destruct event as [[type x y]|]; cbn [fst snd MoveEvent.type];
    [|by intros ?%elem_of_nil].
  destruct type; cbn [snd]; try (by intros ?%elem_of_nil);
    destruct (Gesture.lastMouseCoords g); cbn [snd MoveEvent.clientX MoveEvent.clientY];
    try (by intros ?%elem_of_nil).
  destruct (PrimFloat.ltb _ _); [|by intros ?%elem_of_nil].
  destruct (elementFromPoint x y) as [element|] eqn:Hel; [|by intros ?%elem_of_nil].
  intros ->%list_elem_of_singleton. by exists x, y, element.
Qed.

Lemma handler_click_count event g :
  length (handler event g).2 ≤ (if isMouseEventOf mouseup event then 1 else 0).
Proof.
  unfold dragClickHandler, isMouseEventOf.
  destruct event as [[type x y]|]; cbn [fst snd MoveEvent.type length]; [|lia].
  destruct type; cbn [snd length]; try lia;
    destruct (Gesture.lastMouseCoords g); cbn [snd length]; try lia.
  destruct (PrimFloat.ltb _ _); cbn [length]; [|lia].
  destruct (elementFromPoint _ _); cbn [length]; lia.
Qed.

(** X1. Every click the handler synthesizes, over any sequence of events and
    from any state, is dispatched at the position of a [mouseup] event of the
    sequence and at the element the hit test finds there; there are never
    more clicks than [mouseup] events. *)
Theorem clicks_only_at_releases (events : list (option MoveEvent.t))
    (g : Gesture.t) (click : DomEffect Element) :
  click ∈ (run events g).2 ->
  (∃ x y element,
     Some (MoveEvent.mk mouseup x y) ∈ events
     ∧ click = DispatchClick element x y
     ∧ elementFromPoint x y = Some element)
  ∧ length (run events g).2 ≤ length (List.filter (isMouseEventOf mouseup) events).
Proof.
  intros Hclick. split.
  - revert g Hclick. induction events as [|event events IH]; intros g.
    + by intros ?%elem_of_nil.
    + rewrite run_cons. cbn [snd]. intros [Hhere|Hlater]%elem_of_app.
      * destruct (handler_click _ _ _ Hhere) as (x & y & element & -> & -> & Hel).
        exists x, y, element. split; [apply list_elem_of_here|done].
      * destruct (IH _ Hlater) as (x & y & element & Hin & -> & Hel).
        exists x, y, element. split; [by apply list_elem_of_further|done].
  - clear Hclick. revert g. induction events as [|event events IH]; intros g.
    + reflexivity.
    + rewrite run_cons. cbn [snd List.filter]. rewrite length_app.
      pose proof (handler_click_count event g) as Hone.
      specialize (IH (handler event g).1).
      destruct (isMouseEventOf mouseup event); cbn [length]; lia.
Qed.

(** X2. Without a [mousedown] nothing happens: from the initial state, a
    sequence of events that holds no [mousedown] leaves the state as it is
    and synthesizes no click, whatever moves and releases it holds. *)
Theorem no_press_no_click (events : list (option MoveEvent.t)) :
  (∀ event, event ∈ events -> isMouseEventOf mousedown event = false) ->
  run events gestureInit = (gestureInit, []).
Proof.
  induction events as [|event events IH]; intros Hnone; [reflexivity|].
  rewrite run_cons.
  assert (Hstep : handler event gestureInit = (gestureInit, [])).
  { pose proof (Hnone event (list_elem_of_here _ _)) as Hev.
    destruct event as [[type x y]|]; [|reflexivity].
    by destruct type. }
  rewrite Hstep. cbn [fst snd app].
  rewrite IH by (intros e He; apply Hnone; by apply list_elem_of_further).
  reflexivity.
Qed.

(** X3. A gesture does not depend on what came before it: after any
    sequence of events, from any state, a press, its moves and its release
    add exactly the clicks they give from the initial state, and leave the
    initial state behind. *)
Theorem gesture_independent_of_history (events : list (option MoveEvent.t))
    (g0 : Gesture.t) (start release : XY.t) (moves : list XY.t) :
  run (events ++ gestureEvents start moves release) g0 =
    (gestureInit,
     (run events g0).2 ++ (run (gestureEvents start moves release) gestureInit).2).
Proof. rewrite run_app, !gesture_run. reflexivity. Qed.

(** X4. Events that are not mouse events ([null], touch or wheel events) are
    ignored: dropping them from a sequence changes neither the final state
    nor the clicks. *)
Theorem non_mouse_events_ignored (events : list (option MoveEvent.t))
    (g : Gesture.t) :
  run events g = run (List.filter isMouseEvent events) g.
Proof.
  revert g. induction events as [|event events IH]; intros g; [reflexivity|].
  cbn [List.filter]. destruct (isMouseEvent event) eqn:Hmouse.
  - rewrite !run_cons. by rewrite IH.
  - rewrite run_cons.
    assert (Hstep : handler event g = (g, [])).
    { destruct event as [[type x y]|]; [|reflexivity]. by destruct type. }
    rewrite Hstep. cbn [fst snd app]. rewrite <- IH.
    by destruct (run events g).
Qed.

End GestureSequences.

Lemma clicks_only_at_releases_witness :
  ∃ x y element,
    Some (MoveEvent.mk mouseup x y)
      ∈ gestureEvents (XY.mk 0 0) [XY.mk 1 1] (XY.mk 3 3)
    ∧ DispatchClick 7 3%float 3%float = DispatchClick element x y
    ∧ hitEverywhere x y = Some element.
Proof.
  apply (clicks_only_at_releases nat hitEverywhere
           (gestureEvents (XY.mk 0 0) [XY.mk 1 1] (XY.mk 3 3)) gestureInit
           (DispatchClick 7 3%float 3%float)).
  apply list_elem_of_here.
Defined.

Lemma no_press_no_click_witness :
  dragClickRun hitEverywhere
    [mouseEvent mousemove (XY.mk 1 1); None; mouseEvent mouseup (XY.mk 1 1)]
    gestureInit
  = (gestureInit, []).
Proof.
  apply (no_press_no_click nat hitEverywhere).
  intros event Hin.
  apply elem_of_cons in Hin as [->|Hin]; [reflexivity|].
  apply elem_of_cons in Hin as [->|Hin]; [reflexivity|].
  apply elem_of_cons in Hin as [->|Hin]; [reflexivity|].
  by apply elem_of_nil in Hin.
Defined.

(** ** The hovered set *)

Lemma elem_of_setAdd (s : list string) (v x : string) :
  x ∈ setAdd s v ↔ x = v ∨ x ∈ s.
Proof.
  unfold setAdd. case_bool_decide as Hin.
  - split; [by right|]. by intros [->|?].
  - rewrite elem_of_app, list_elem_of_singleton. tauto.
Qed.

Lemma elem_of_setDelete (s : list string) (v x : string) :
  x ∈ setDelete s v ↔ x ≠ v ∧ x ∈ s.
Proof. unfold setDelete. by rewrite list_elem_of_filter. Qed.

Lemma NoDup_setAdd (s : list string) (v : string) :
  NoDup s -> NoDup (setAdd s v).
Proof.
  intros Hs. unfold setAdd. case_bool_decide as Hin; [done|].
  apply NoDup_app. split; [done|]. split; [|apply NoDup_singleton].
  intros x Hx ->%list_elem_of_singleton. done.
Qed.

Lemma NoDup_setDelete (s : list string) (v : string) :
  NoDup s -> NoDup (setDelete s v).
Proof. intros Hs. unfold setDelete. by apply NoDup_filter. Qed.

(** X5. The hovered set follows the hover events: it never holds an id
    twice, and after any sequence of enter and leave events an edge is in it
    exactly when the last event on that edge was an enter (or, with no event
    on it, when it was in the set before). *)
Theorem hover_set_follows_events (events : list (HoverEventType * Edge.t))
    (prev : list string) (id : string) :
  NoDup prev ->
  NoDup (hoverRun events prev)
  ∧ bool_decide (id ∈ hoverRun events prev)
    = hoveredAfter events id (bool_decide (id ∈ prev)).
Proof.
  revert prev. induction events as [|[type edge] events IH]; intros prev Hprev.
  - by split.
  - assert (Hstep : NoDup (handleEdgeHover type edge prev)).
    { destruct type; [by apply NoDup_setAdd|by apply NoDup_setDelete]. }
    destruct (IH _ Hstep) as [Hnodup Hmem].
    split; [exact Hnodup|].
    change (hoverRun ((type, edge) :: events) prev)
      with (hoverRun events (handleEdgeHover type edge prev)).
    rewrite Hmem. cbn [hoveredAfter fst snd]. f_equal.
    clear IH Hmem Hnodup Hstep.
    destruct (decide (Edge.id edge = id)) as [Hid|Hid].
    + rewrite (bool_decide_eq_true_2 (Edge.id edge = id)) by done.
      destruct type; cbn [handleEdgeHover].
      * apply bool_decide_eq_true_2, elem_of_setAdd. by left.
      * apply bool_decide_eq_false_2. rewrite elem_of_setDelete.
        intros [Hne _]. by apply Hne.
    + rewrite (bool_decide_eq_false_2 (Edge.id edge = id)) by done.
      destruct type; cbn [handleEdgeHover]; apply bool_decide_ext.
      * rewrite elem_of_setAdd. intuition congruence.
      * rewrite elem_of_setDelete. intuition congruence.
Qed.

Lemma hover_set_follows_events_witness :
  bool_decide ("A" ∈ hoverRun [(mouseenter, Edge.mk "A" "s" "t" None None);
                               (mouseenter, Edge.mk "B" "s" "t" None None);
                               (mouseleave, Edge.mk "A" "s" "t" None None)] [])
  = false.
Proof.
  destruct (hover_set_follows_events
              [(mouseenter, Edge.mk "A" "s" "t" None None);
               (mouseenter, Edge.mk "B" "s" "t" None None);
               (mouseleave, Edge.mk "A" "s" "t" None None)] [] "A")
    as [_ Hmem]; [apply NoDup_nil_2|].
  rewrite Hmem. reflexivity.
Defined.

(** ** The event chain as a function of the hovered set *)

Lemma elem_of_visitedIds_app h1 h2 links id :
  id ∈ visitedIds (h1 ++ h2) links
  ↔ id ∈ visitedIds h1 links ∨ id ∈ visitedIds h2 links.
Proof. unfold visitedIds. by rewrite bind_app, elem_of_app. Qed.

Lemma completes_dec (links : gmap string Links.t) (hovered : list string) :
  completes links hovered
  ∨ ∃ edgeId, edgeId ∈ hovered ∧ throwsAt links edgeId = true.
Proof.
  induction hovered as [|h hovered IH].
  - left. by intros h ?%elem_of_nil.
  - destruct (throwsAt links h) eqn:Hh.
    + right. exists h. split; [apply list_elem_of_here|done].
    + destruct IH as [Hrest|(h' & Hin & Hthrows)].
      * left. intros h' [->|Hin]%elem_of_cons; [done|by apply Hrest].
      * right. exists h'. split; [by apply list_elem_of_further|done].
Qed.

(** X6. The result depends on the hovered ids as a set only: two hovered
    lists with the same members, in any order and with any repetitions, give
    the same map of edges. *)
Theorem hover_result_by_set (hovered1 hovered2 : list string)
    (edges : gmap string Edge.t) (links : gmap string Links.t) :
  (∀ id, id ∈ hovered1 ↔ id ∈ hovered2) ->
  edgesWithHovered hovered1 edges links = edgesWithHovered hovered2 edges links.
Proof.
  intros Hsame.
  destruct (completes_dec links hovered1) as [Hcompletes|(h & Hin & Hthrows)].
  - assert (Hcompletes2 : completes links hovered2).
    { intros h Hh. apply Hcompletes. by apply Hsame. }
    destruct (edgesWithHovered_lookup hovered1 edges links Hcompletes)
      as (result1 & -> & Hlookup1).
    destruct (edgesWithHovered_lookup hovered2 edges links Hcompletes2)
      as (result2 & -> & Hlookup2).
    f_equal. apply map_eq. intros id. rewrite Hlookup1, Hlookup2.
    assert (Hvisited : bool_decide (id ∈ visitedIds hovered1 links)
                       = bool_decide (id ∈ visitedIds hovered2 links)).
    { apply bool_decide_ext. rewrite !visitedIds_inEventChain.
      unfold inEventChain.
      split; intros (h & l & Hh & Hl & Hid); exists h, l;
        (split; [by apply Hsame|done]). }
    by rewrite Hvisited.
  - rewrite (edgesWithHovered_throws hovered1 edges links h Hin Hthrows).
    by rewrite (edgesWithHovered_throws hovered2 edges links h
                  (proj1 (Hsame h) Hin) Hthrows).
Qed.

Lemma hover_result_by_set_witness :
  edgesWithHovered ["A"; "C"] sampleEdges sampleLinks
  = edgesWithHovered ["C"; "A"; "C"] sampleEdges sampleLinks.
Proof.
  apply hover_result_by_set. intros id.
  rewrite !elem_of_cons, !elem_of_nil. tauto.
Defined.

(** X7. The computation completes exactly when no hovered id without a link
    entry of its own names a property that plain objects inherit (otherwise
    it throws), and when it completes it has not added, dropped or renamed
    an edge: the result has the keys of the input map, the returned array
    has as many edges as the map, and at every key the id, source, target
    and selected state of the edge are those of the input edge. *)
Theorem hover_keeps_edges (hovered : list string)
    (edges : gmap string Edge.t) (links : gmap string Links.t) (id : string) :
  (is_Some (edgesWithHovered hovered edges links) ↔ completes links hovered)
  ∧ (is_Some (edgesArray hovered edges links) ↔ completes links hovered)
  ∧ (∀ result array,
       edgesWithHovered hovered edges links = Some result ->
       edgesArray hovered edges links = Some array ->
       dom result = dom edges
       ∧ length array = size edges
       ∧ Edge.id <$> result !! id = Edge.id <$> edges !! id
       ∧ Edge.source <$> result !! id = Edge.source <$> edges !! id
       ∧ Edge.target <$> result !! id = Edge.target <$> edges !! id
       ∧ Edge.selected <$> result !! id = Edge.selected <$> edges !! id).
Proof.
  assert (Hiff : is_Some (edgesWithHovered hovered edges links)
                 ↔ completes links hovered).
  { split.
    - intros [result Hresult].
      destruct (completes_dec links hovered) as [Hc|(h & Hin & Hthrows)]; [done|].
      by rewrite (edgesWithHovered_throws _ _ _ h Hin Hthrows) in Hresult.
    - intros Hc.
      destruct (edgesWithHovered_lookup hovered edges links Hc) as (r & -> & _).
      by eexists. }
  assert (Harray : edgesArray hovered edges links
                   = if bool_decide (length hovered = 0)
                     then Some (JS.Object_values edges)
                     else JS.Object_values <$> edgesWithHovered hovered edges links).
  { case_bool_decide as Hempty.
    - by destruct hovered.
    - apply edgesArray_nonempty. by intros ->. }
  split; [exact Hiff|]. split.
  - rewrite Harray. case_bool_decide as Hempty.
    + destruct hovered; [|done]. split; [|by eexists].
      by intros _ h ?%elem_of_nil.
    + by rewrite fmap_is_Some.
  - intros result array Hresult Harr.
    assert (Hc : completes links hovered) by (apply Hiff; by eexists).
    destruct (edgesWithHovered_lookup hovered edges links Hc)
      as (result' & Hresult' & Hlookup).
    rewrite Hresult in Hresult'. injection Hresult' as <-.
    assert (Hfields : ∀ k,
      result !! k = edges !! k ∨ result !! k = visitedEdge <$> edges !! k).
    { intros k. rewrite Hlookup.
      destruct (bool_decide (k ∈ visitedIds hovered links)); [by right|by left]. }
    assert (Hdom : dom result = dom edges).
    { apply set_eq. intros k. rewrite !elem_of_dom.
      destruct (Hfields k) as [->| ->]; [done|]. by rewrite fmap_is_Some. }
    split; [exact Hdom|]. split.
    + rewrite Harray, Hresult in Harr. unfold JS.Object_values in Harr.
      case_bool_decide; injection Harr as <-;
        rewrite length_fmap, length_map_to_list; [done|].
      rewrite <- !size_dom. by rewrite Hdom.
    + assert (Hvisited : ∀ edge,
        Edge.id (visitedEdge edge) = Edge.id edge
        ∧ Edge.source (visitedEdge edge) = Edge.source edge
        ∧ Edge.target (visitedEdge edge) = Edge.target edge
        ∧ Edge.selected (visitedEdge edge) = Edge.selected edge).
      { intros edge. unfold visitedEdge. by destruct (Edge.data edge). }
      destruct (Hfields id) as [->| ->]; [done|].
      destruct (edges !! id) as [edge|]; [|done]. simpl.
      destruct (Hvisited edge) as (-> & -> & -> & ->). done.
Qed.

Lemma hover_keeps_edges_witness :
  ∃ result array,
    edgesWithHovered ["A"] sampleEdges sampleLinks = Some result
    ∧ edgesArray ["A"] sampleEdges sampleLinks = Some array
    ∧ dom result = dom sampleEdges
    ∧ length array = size sampleEdges
    ∧ Edge.source <$> result !! "B" = Edge.source <$> sampleEdges !! "B".
Proof.
  destruct (hover_keeps_edges ["A"] sampleEdges sampleLinks "B")
    as (Hmap & Harr & Hkeeps).
  assert (Hc : completes sampleLinks ["A"]).
  { intros h Hin. apply elem_of_cons in Hin as [->|Hin]; [reflexivity|].
    by apply elem_of_nil in Hin. }
  destruct (proj2 Hmap Hc) as [result Hresult].
  destruct (proj2 Harr Hc) as [array Harray].
  exists result, array. do 2 (split; [done|]).
  destruct (Hkeeps result array Hresult Harray) as (Hdom & Hlen & _ & Hsrc & _).
  done.
Defined.

(** X8. Several hovered edges highlight the union of their event chains:
    when the computation completes for the hovered ids of two lists
    together, it completes for each list, and an edge carries the flag in
    the joint result exactly when it carries it in one of the two. *)
Theorem hover_union (hovered1 hovered2 : list string)
    (edges : gmap string Edge.t) (links : gmap string Links.t) (id : string) :
  completes links (hovered1 ++ hovered2) ->
  ∃ result1 result2 result,
    edgesWithHovered hovered1 edges links = Some result1
    ∧ edgesWithHovered hovered2 edges links = Some result2
    ∧ edgesWithHovered (hovered1 ++ hovered2) edges links = Some result
    ∧ hoveredFlag result id = hoveredFlag result1 id || hoveredFlag result2 id.
Proof.
  intros Hc.
  assert (Hc1 : completes links hovered1).
  { intros h Hh. apply Hc, elem_of_app. by left. }
  assert (Hc2 : completes links hovered2).
  { intros h Hh. apply Hc, elem_of_app. by right. }
  destruct (edgesWithHovered_lookup hovered1 edges links Hc1)
    as (result1 & Hresult1 & Hlookup1).
  destruct (edgesWithHovered_lookup hovered2 edges links Hc2)
    as (result2 & Hresult2 & Hlookup2).
  destruct (edgesWithHovered_lookup (hovered1 ++ hovered2) edges links Hc)
    as (result & Hresult & Hlookup).
  exists result1, result2, result. do 3 (split; [done|]).
  unfold hoveredFlag. rewrite Hlookup, Hlookup1, Hlookup2.
  assert (Hflag : ∀ edge,
    isEventChainHovered edge = true -> isEventChainHovered (visitedEdge edge) = true).
  { intros edge. unfold visitedEdge, isEventChainHovered.
    by destruct (Edge.data edge). }
  pose proof (elem_of_visitedIds_app hovered1 hovered2 links id) as Happ.
  destruct (edges !! id) as [edge|]; [|by repeat case_bool_decide].
  specialize (Hflag edge).
  repeat case_bool_decide; simpl; try tauto;
    destruct (isEventChainHovered edge), (isEventChainHovered (visitedEdge edge));
    try done; by (discriminate Hflag).
Qed.

Lemma hover_union_witness :
  ∃ result1 result2 result,
    edgesWithHovered ["A"] sampleEdges sampleLinks = Some result1
    ∧ edgesWithHovered ["C"] sampleEdges sampleLinks = Some result2
    ∧ edgesWithHovered (["A"] ++ ["C"]) sampleEdges sampleLinks = Some result
    ∧ hoveredFlag result "B" = hoveredFlag result1 "B" || hoveredFlag result2 "B".
Proof.
  apply hover_union. intros h Hin.
  apply elem_of_cons in Hin as [->|Hin]; [reflexivity|].
  apply elem_of_cons in Hin as [->|Hin]; [reflexivity|].
  by apply elem_of_nil in Hin.
Defined.

(** ** The corrected label position *)

Lemma closerY_cases labelY closest y :
  closerY labelY closest y = closest ∨ closerY labelY closest y = y.
Proof. unfold closerY. destruct (PrimFloat.ltb _ _); auto. Qed.

Lemma scanSegments_step labelX labelY labelWidth closest start end_ points :
  scanSegments labelX labelY labelWidth closest (start :: end_ :: points)
  = scanSegments labelX labelY labelWidth
      (if segmentCovers labelX labelWidth start end_
       then closerY labelY (closerY labelY closest (XY.y start)) (XY.y end_)
       else closest)
      (end_ :: points).
Proof. reflexivity. Qed.

Lemma scanSegments_range labelX labelY labelWidth closest points :
  scanSegments labelX labelY labelWidth closest points = closest
  ∨ ∃ p, p ∈ points
         ∧ scanSegments labelX labelY labelWidth closest points = XY.y p.
Proof.
  revert closest. induction points as [|start points IH]; intros closest.
  - by left.
  - destruct points as [|end_ points]; [by left|].
    rewrite scanSegments_step.
    set (next := if segmentCovers labelX labelWidth start end_
                 then closerY labelY (closerY labelY closest (XY.y start)) (XY.y end_)
                 else closest).
    assert (Hnext : next = closest ∨ next = XY.y start ∨ next = XY.y end_).
    { subst next. destruct (segmentCovers _ _ _ _); [|by left].
      destruct (closerY_cases labelY (closerY labelY closest (XY.y start)) (XY.y end_))
        as [->| ->]; [|by right; right].
      destruct (closerY_cases labelY closest (XY.y start)) as [->| ->]; auto. }
    destruct (IH next) as [Hsame|(p & Hp & Hres)].
    + rewrite Hsame. destruct Hnext as [->|[->| ->]]; [by left| |].
      * right. exists start. split; [apply list_elem_of_here|done].
      * right. exists end_.
        split; [apply list_elem_of_further, list_elem_of_here|done].
    + right. exists p. split; [by apply list_elem_of_further|done].
Qed.

Lemma calculateClosestPathMidpoint_guard label points :
  JS.falsy (Label.x label) || JS.falsy (Label.y label) || JS.falsy (Label.width label)
    = true ->
  calculateClosestPathMidpoint label points = Label.y label.
Proof.
  unfold calculateClosestPathMidpoint, JS.falsy.
  destruct (Label.x label), (Label.y label) as [labelY|], (Label.width label);
    try done.
  by intros ->.
Qed.

Lemma calculateClosestPathMidpoint_range (label : Label.t) (points : list XY.t) :
  (JS.falsy (Label.x label) || JS.falsy (Label.y label) || JS.falsy (Label.width label)
     = true
   ∧ calculateClosestPathMidpoint label points = Label.y label)
  ∨ (JS.falsy (Label.x label) || JS.falsy (Label.y label)
       || JS.falsy (Label.width label) = false
     ∧ (calculateClosestPathMidpoint label points = Some infinity
        ∨ ∃ p, p ∈ points
               ∧ calculateClosestPathMidpoint label points = Some (XY.y p))).
Proof.
  destruct (JS.falsy (Label.x label) || JS.falsy (Label.y label)
            || JS.falsy (Label.width label)) eqn:Hguard.
  - left. split; [done|]. by apply calculateClosestPathMidpoint_guard.
  - right. split; [done|].
    unfold calculateClosestPathMidpoint, JS.falsy in *.
    destruct (Label.x label) as [labelX|]; [|done].
    destruct (Label.y label) as [labelY|]; [|by rewrite orb_true_r in Hguard].
    destruct (Label.width label) as [labelWidth|];
      [|by rewrite orb_true_r in Hguard].
    rewrite Hguard.
    destruct (scanSegments_range labelX labelY labelWidth infinity points)
      as [->|(p & Hp & ->)]; [by left|].
    right. by exists p.
Qed.

(** X9. The label correction never invents a position. With a missing,
    zero or [NaN] [x], [y] or [width] the result is [label.y] itself;
    otherwise it is [Infinity] or the [y] of one of the path points. *)
Theorem label_y_from_path (label : Label.t) (points : list XY.t) :
  (JS.falsy (Label.x label) || JS.falsy (Label.y label) || JS.falsy (Label.width label)
     = true
   ∧ calculateClosestPathMidpoint label points = Label.y label)
  ∨ (JS.falsy (Label.x label) || JS.falsy (Label.y label)
       || JS.falsy (Label.width label) = false
     ∧ (calculateClosestPathMidpoint label points = Some infinity
        ∨ ∃ p, p ∈ points
               ∧ calculateClosestPathMidpoint label points = Some (XY.y p))).
Proof. apply calculateClosestPathMidpoint_range. Qed.

(** X10. When no segment of the path covers the label, and so for every
    path of fewer than two points, the corrected position of a label with
    all three fields is [Infinity], not [label.y]. *)
Theorem uncovered_label_is_infinite (label : Label.t) (points : list XY.t)
    (labelX labelY labelWidth : float) :
  Label.x label = Some labelX ->
  Label.y label = Some labelY ->
  Label.width label = Some labelWidth ->
  JS.falsyNumber labelX || JS.falsyNumber labelY || JS.falsyNumber labelWidth = false ->
  (∀ pair, pair ∈ consecutivePairs points ->
           segmentCovers labelX labelWidth pair.1 pair.2 = false) ->
  calculateClosestPathMidpoint label points = Some infinity.
Proof.
  intros Hx Hy Hw Hguard Hnone.
  unfold calculateClosestPathMidpoint. rewrite Hx, Hy, Hw, Hguard. f_equal.
  generalize infinity as closest. clear Hx Hy Hw Hguard.
  induction points as [|start points IH]; intros closest; [done|].
  destruct points as [|end_ points]; [done|].
  rewrite scanSegments_step.
  pose proof (Hnone (start, end_) (list_elem_of_here _ _)) as Hhere.
  cbn [fst snd] in Hhere. rewrite Hhere.
  apply IH. intros pair Hpair. apply Hnone.
  by apply list_elem_of_further.
Qed.

Lemma uncovered_label_is_infinite_witness :
  calculateClosestPathMidpoint
    (Label.mk None (Some 20%float) (Some 5%float) (Some 1%float)) cornerPath
  = Some infinity.
Proof.
  apply (uncovered_label_is_infinite _ _ 20%float 5%float 1%float);
    try reflexivity.
  intros pair Hin.
  apply elem_of_cons in Hin as [->|Hin]; [reflexivity|].
  apply elem_of_cons in Hin as [->|Hin]; [reflexivity|].
  by apply elem_of_nil in Hin.
Defined.

(** X11. What the edge component renders for a routed edge: the edge id
    and the label text as given, the label at [label.x] unchanged, and at a
    [y] that is [label.y], [Infinity] or the [y] of the start point, of a
    bend point or of the end point of the section. *)
Theorem rendered_edge_label (numberToString : float -> string)
    (props : EdgeProps.t) (element : EdgeElement.t) :
  ELKEdge numberToString props = Some element ->
  ∃ data section,
    EdgeProps.data props = Some data
    ∧ ELKEdgeData.section data = Some section
    ∧ EdgeElement.id element = EdgeProps.id props
    ∧ EdgeElement.labelText element = Label.text (ELKEdgeData.label data)
    ∧ EdgeElement.labelX element = Label.x (ELKEdgeData.label data)
    ∧ (EdgeElement.labelY element = Label.y (ELKEdgeData.label data)
       ∨ EdgeElement.labelY element = Some infinity
       ∨ ∃ p, p ∈ labelPoints section
              ∧ EdgeElement.labelY element = Some (XY.y p)).
Proof.
  unfold ELKEdge. destruct (EdgeProps.data props) as [data|]; [|done].
  destruct (ELKEdgeData.section data) as [section|] eqn:Hsection; [|done].
  intros [= <-]. exists data, section.
  cbn [EdgeElement.id EdgeElement.labelText EdgeElement.labelX EdgeElement.labelY].
  do 5 (split; [done|]).
  change (ElkEdgeSection.startPoint section
            :: default [] (ElkEdgeSection.bendPoints section)
            ++ [ElkEdgeSection.endPoint section])
    with (labelPoints section).
  destruct (calculateClosestPathMidpoint_range (ELKEdgeData.label data)
              (labelPoints section))
    as [[_ ->]|[_ [->|(p & Hp & ->)]]]; [by left|by right; left|].
  right; right. by exists p.
Qed.

Lemma rendered_edge_label_witness :
  match ELKEdge (fun _ => "0") routedProps with
  | Some element =>
      ∃ data section,
        EdgeProps.data routedProps = Some data
        ∧ ELKEdgeData.section data = Some section
        ∧ EdgeElement.id element = EdgeProps.id routedProps
        ∧ EdgeElement.labelText element = Label.text (ELKEdgeData.label data)
        ∧ EdgeElement.labelX element = Label.x (ELKEdgeData.label data)
        ∧ (EdgeElement.labelY element = Label.y (ELKEdgeData.label data)
           ∨ EdgeElement.labelY element = Some infinity
           ∨ ∃ p, p ∈ labelPoints section
                  ∧ EdgeElement.labelY element = Some (XY.y p))
  | None => False
  end.
Proof.
  destruct (ELKEdge (fun _ => "0") routedProps) as [element|] eqn:Hrender.
  - exact (rendered_edge_label _ _ _ Hrender).
  - discriminate Hrender.
Defined.

(** X12. The classes of an edge. It is dimmed ([opacity-40]) exactly when it
    is neither selected nor in a hovered event chain, drawn in the hover
    colour exactly when it is in a hovered event chain, and in the primary
    colour exactly when it is selected; absent flags count as [false]. The
    class name is these classes joined by spaces. *)
Theorem edge_classes (selected eventChainHovered : option bool) :
  edgeClassName selected eventChainHovered
    = JS.join " " (edgeClasses selected eventChainHovered)
  ∧ bool_decide ("opacity-40" ∈ edgeClasses selected eventChainHovered)
    = negb (default false eventChainHovered) && negb (default false selected)
  ∧ bool_decide ("stroke-hover" ∈ edgeClasses selected eventChainHovered)
    = default false eventChainHovered
  ∧ bool_decide ("stroke-primary" ∈ edgeClasses selected eventChainHovered)
    = default false selected
  ∧ bool_decide ("opacity-100" ∈ edgeClasses selected eventChainHovered)
    = default false selected && default false eventChainHovered.
Proof.
  destruct selected as [[]|], eventChainHovered as [[]|];
    repeat split; vm_compute; reflexivity.
Qed.

(** ** Selection changes: unknown ids and edges *)

Lemma forOf_app {A} (l1 l2 : list A) (body : A -> Run.t unit) :
  Run.forOf (l1 ++ l2) body
  = Run.bind (Run.forOf l1 body) (fun _ => Run.forOf l2 body).
Proof.
  induction l1 as [|a l1 IH].
  - unfold Run.bind. cbn. by destruct (Run.forOf l2 body).
  - cbn [app Run.forOf]. rewrite IH. unfold Run.bind.
    destruct (body a) as [effects [[]|]]; cbn [fst snd]; [|done].
    destruct (Run.forOf l1 body) as [effects1 [[]|]]; cbn [fst snd]; [|done].
    by rewrite app_assoc.
Qed.

Lemma forOf_ext {A} (l : list A) (body1 body2 : A -> Run.t unit) :
  (∀ a, a ∈ l -> body1 a = body2 a) ->
  Run.forOf l body1 = Run.forOf l body2.
Proof.
  induction l as [|a l IH]; intros Hbody; [done|].
  cbn [Run.forOf]. rewrite (Hbody a) by apply list_elem_of_here.
  rewrite IH by (intros b Hb; apply Hbody; by apply list_elem_of_further).
  reflexivity.
Qed.

Lemma selectChanges_app (changes1 changes2 : list Change) :
  selectChanges (changes1 ++ changes2)
  = selectChanges changes1 ++ selectChanges changes2.
Proof. unfold selectChanges. apply omap_app. Qed.

Lemma selectChanges_cons (id : string) (selected : bool) (changes : list Change) :
  selectChanges (SelectionChange id selected :: changes)
  = (id, selected) :: selectChanges changes.
Proof. reflexivity. Qed.

Section SelectionEdgeCases.

Variable typeIdFromResourceId : ResourceId -> string.

(** X13. A selection change for a node that is not in the node map stops
    the handler with a [TypeError]: the changes before it have been relayed,
    it and every change after it are not. *)
Theorem unknown_node_aborts_batch (nodes : gmap string Node.t)
    (before after : list Change) (id : string) (selected : bool) :
  (∀ change, change ∈ selectChanges before -> is_Some (nodes !! change.1)) ->
  nodes !! id = None ->
  onNodesChange typeIdFromResourceId nodes
    (before ++ SelectionChange id selected :: after)
  = ((onNodesChange typeIdFromResourceId nodes before).1, None).
Proof.
  intros Hbefore Hid.
  pose proof (onNodesChange_effects typeIdFromResourceId nodes before Hbefore)
    as Hrun.
  rewrite Hrun. cbn [fst].
  unfold onNodesChange in *.
  rewrite selectChanges_app, selectChanges_cons, forOf_app.
  match goal with |- context [Run.forOf _ ?b] => set (body := b) in * end.
  rewrite Hrun.
  assert (Hthrow : body (id, selected) = ([], None)).
  { subst body. cbn [fst snd].
    unfold mbind, run_bind, Run.bind, Run.get. rewrite Hid.
    by destruct selected. }
  unfold Run.bind at 1. cbn [fst snd Run.forOf].
  unfold Run.bind. rewrite Hthrow. cbn [fst snd]. by rewrite app_nil_r.
Qed.

Lemma onEdgesChange_effects (edges : gmap string Edge.t) (changes : list Change) :
  (∀ change, change ∈ selectChanges changes -> is_Some (edges !! change.1)) ->
  onEdgesChange typeIdFromResourceId edges changes =
    (selectChanges changes ≫= (fun change =>
       [edgeSelectionTelemetry typeIdFromResourceId
          (edges !! change.1 ≫= firstEvent) change.2;
        QueryDataDispatch (edgeSelectionAction change)]),
     Some tt).
Proof.
  intros Hedges. unfold onEdgesChange. apply forOf_effects.
  intros [id selected] Hin. destruct (Hedges _ Hin) as [edge Hedge].
  cbn [fst snd] in *. unfold firstEventAt, JS.read. rewrite Hedge.
  by destruct selected.
Qed.

(** X14. For a batch of edge changes whose selection entries name edges of
    the edge map, the handler completes and emits, for each selection entry
    in batch order, the telemetry event and then the action: [SelectEdge] or
    [DeselectEdge]. The telemetry is taken from the first event of the edge,
    and an edge without data or without events is relayed all the same, with
    no types in its telemetry. *)
Theorem edge_selection_relay (edges : gmap string Edge.t) (changes : list Change) :
  (∀ change, change ∈ selectChanges changes -> is_Some (edges !! change.1)) ->
  let run := onEdgesChange typeIdFromResourceId edges changes in
  run.2 = Some tt
  ∧ run.1 = selectChanges changes ≫= (fun change =>
       [edgeSelectionTelemetry typeIdFromResourceId
          (edges !! change.1 ≫= firstEvent) change.2;
        QueryDataDispatch (edgeSelectionAction change)])
  ∧ dispatched run.1 = edgeSelectionAction <$> selectChanges changes
  ∧ edgeSelectionTelemetry typeIdFromResourceId None true
    = PosthogCapture "graph_event_selected"
        [("principal_type", None); ("event_type", None); ("resource_type", None)].
Proof.
  intros Hedges run. subst run.
  rewrite onEdgesChange_effects by done. cbn [fst snd].
  split; [done|]. split; [done|]. split; [|done].
  clear Hedges. induction (selectChanges changes) as [|change l IH]; [done|].
  change ((change :: l) ≫= ?f) with (f change ++ (l ≫= f)).
  rewrite dispatched_app, IH. reflexivity.
Qed.

(** X15. The relay of edge selection changes reads nothing of an edge but
    its first event: two edge maps that hold the same keys with the same
    first events give the same effects and the same outcome, whatever else
    differs in the edges. *)
Theorem edge_relay_reads_first_event (edges1 edges2 : gmap string Edge.t)
    (changes : list Change) :
  (∀ id, firstEvent <$> edges1 !! id = firstEvent <$> edges2 !! id) ->
  onEdgesChange typeIdFromResourceId edges1 changes
  = onEdgesChange typeIdFromResourceId edges2 changes.
Proof.
  intros Hsame. unfold onEdgesChange. apply forOf_ext.
  intros [id selected] _. cbn [fst snd]. specialize (Hsame id).
  assert (Hfirst : firstEventAt edges1 id = firstEventAt edges2 id).
  { unfold firstEventAt, JS.read.
    destruct (edges1 !! id) as [edge1|], (edges2 !! id) as [edge2|];
      try done.
    change (Some (firstEvent edge1) = Some (firstEvent edge2)) in Hsame.
    injection Hsame as Hfirst. by rewrite Hfirst. }
  by rewrite Hfirst.
Qed.

End SelectionEdgeCases.

Lemma unknown_node_aborts_batch_witness :
  onNodesChange sampleTypeId sampleNodes
    ([SelectionChange "A" true] ++ SelectionChange "Z" true
       :: [SelectionChange "A" false])
  = ((onNodesChange sampleTypeId sampleNodes [SelectionChange "A" true]).1, None).
Proof.
  apply unknown_node_aborts_batch; [|reflexivity].
  intros change Hin. apply (bool_decide_unpack _).
  apply elem_of_cons in Hin as [->|Hin]; [reflexivity|].
  by apply elem_of_nil in Hin.
Defined.

Lemma edge_selection_relay_witness :
  dispatched
    (onEdgesChange sampleTypeId sampleEdges
       [SelectionChange "C" true; SelectionChange "A" false]).1
  = [SelectEdge "C" false; DeselectEdge "A"].
Proof.
  destruct (edge_selection_relay sampleTypeId sampleEdges
              [SelectionChange "C" true; SelectionChange "A" false])
    as (_ & _ & Hactions & _).
  - intros change Hin. apply (bool_decide_unpack _).
    apply elem_of_cons in Hin as [->|Hin]; [reflexivity|].
    apply elem_of_cons in Hin as [->|Hin]; [reflexivity|].
    by apply elem_of_nil in Hin.
  - exact Hactions.
Defined.

Lemma edge_relay_reads_first_event_witness :
  onEdgesChange sampleTypeId sampleEdges [SelectionChange "A" true]
  = onEdgesChange sampleTypeId
      (<["A" := Edge.mk "A" "x" "y" (Some true) (Some (sampleData "x" "y"))]>
         sampleEdges)
      [SelectionChange "A" true].
Proof.
  apply edge_relay_reads_first_event. intros id.
  destruct (decide (id = "A")) as [->|Hne].
  - reflexivity.
  - by rewrite lookup_insert_ne.
Defined.

(** ** The resource node *)

(** X16. The container of a node takes the title height exactly when the
    node has children and is not collapsed, and the full height otherwise;
    the double border shows exactly when the node is selected; and for a
    node without children the [collapsed] flag changes nothing. *)
Theorem container_classes (selected : bool) (data : ResourceNodeData.t)
    (collapsed : bool) :
  let isOpenContainer :=
    bool_decide (0 < ResourceNodeData.numChildren data)
    && negb (ResourceNodeData.collapsed data) in
  bool_decide ("h-[var(--resource-title-height)]" ∈ containerClasses selected data)
    = isOpenContainer
  ∧ bool_decide ("h-full" ∈ containerClasses selected data) = negb isOpenContainer
  ∧ bool_decide ("after:border-double" ∈ containerClasses selected data) = selected
  ∧ (if bool_decide (0 < ResourceNodeData.numChildren data) then True
     else containerClassName selected (withCollapsed collapsed data)
          = containerClassName selected data).
Proof.
  destruct data as [id numChildren wasCollapsed issues highlighted].
  unfold containerClassName, containerClasses, withCollapsed.
  cbn [ResourceNodeData.numChildren ResourceNodeData.collapsed
       ResourceNodeData.id ResourceNodeData.resourceIssueIds
       ResourceNodeData.highlighted].
  destruct (bool_decide (0 < numChildren)), wasCollapsed, selected;
    repeat split; vm_compute; reflexivity.
Qed.

Lemma elem_of_foldl_setAdd (values acc : list string) (x : string) :
  x ∈ foldl setAdd acc values ↔ x ∈ acc ∨ x ∈ values.
Proof.
  revert acc. induction values as [|v values IH]; intros acc; cbn [foldl].
  - rewrite elem_of_nil. tauto.
  - rewrite IH, elem_of_setAdd, elem_of_cons. tauto.
Qed.

Lemma NoDup_foldl_setAdd (values acc : list string) :
  NoDup acc -> NoDup (foldl setAdd acc values).
Proof.
  revert acc. induction values as [|v values IH]; intros acc Hacc; [done|].
  cbn [foldl]. apply IH. by apply NoDup_setAdd.
Qed.

Lemma elem_of_newSet (values : list string) (x : string) :
  x ∈ newSet values ↔ x ∈ values.
Proof. unfold newSet. rewrite elem_of_foldl_setAdd, elem_of_nil. tauto. Qed.

Lemma NoDup_newSet (values : list string) : NoDup (newSet values).
Proof. apply NoDup_foldl_setAdd, NoDup_nil_2. Qed.

Lemma no_new_among (current l : list string) :
  (∀ x, x ∈ l -> x ∈ current) ->
  filter (fun item => CommandItem.isNew item = true)
    ((fun envName =>
        CommandItem.mk envName (negb (bool_decide (envName ∈ current)))) <$> l)
  = [].
Proof.
  induction l as [|x l IH]; intros Hsub; [done|].
  cbn [fmap list_fmap]. rewrite filter_cons_False.
  - apply IH. intros y Hy. apply Hsub. by apply list_elem_of_further.
  - cbn. rewrite bool_decide_eq_true_2 by (apply Hsub, list_elem_of_here). done.
Qed.

Lemma known_not_new (current l : list string) :
  (∀ x, x ∈ l -> x ∈ current) ->
  (fun envName =>
     CommandItem.mk envName (negb (bool_decide (envName ∈ current)))) <$> l
  = (fun envName => CommandItem.mk envName false) <$> l.
Proof.
  induction l as [|x l IH]; intros Hsub; [done|].
  cbn [fmap list_fmap]. f_equal.
  - by rewrite bool_decide_eq_true_2 by apply Hsub, list_elem_of_here.
  - apply IH. intros y Hy. apply Hsub. by apply list_elem_of_further.
Qed.

Lemma foldl_setAdd_NoDup (values acc : list string) :
  NoDup (acc ++ values) -> foldl setAdd acc values = acc ++ values.
Proof.
  revert acc. induction values as [|v values IH]; intros acc Hnodup; cbn [foldl].
  - by rewrite app_nil_r.
  - assert (Hv : v ∉ acc).
    { apply NoDup_app in Hnodup as (_ & Hdisjoint & _).
      intros Hin. apply (Hdisjoint v Hin), list_elem_of_here. }
    unfold setAdd at 2. rewrite bool_decide_eq_false_2 by done.
    rewrite IH; rewrite <- app_assoc; done.
Qed.

(** X17. The list of the add-environment dialog is, in this order, the
    known environments, each once and none marked, followed by the typed
    text, marked [(new)], if it is not empty and not a known environment.
    Known environments given without repetition keep their order. *)
Theorem add_environment_entries (environments : list string) (addEnvInput : string) :
  addEnvItems environments addEnvInput
  = ((fun envName => CommandItem.mk envName false) <$> newSet environments)
    ++ (if bool_decide (addEnvInput = EmptyString)
           || bool_decide (addEnvInput ∈ environments)
        then []
        else [CommandItem.mk addEnvInput true])
  ∧ NoDup (newSet environments)
  ∧ (∀ env, env ∈ newSet environments ↔ env ∈ environments)
  ∧ (if bool_decide (NoDup environments) then newSet environments = environments
     else True)
  ∧ NoDup (CommandItem.value <$> addEnvItems environments addEnvInput)
  ∧ (∀ env, env ∈ CommandItem.value <$> addEnvItems environments addEnvInput
            ↔ env ∈ environments ∨ (env = addEnvInput ∧ addEnvInput ≠ EmptyString))
  ∧ filter (fun item => CommandItem.isNew item = true)
      (addEnvItems environments addEnvInput)
    = (if bool_decide (addEnvInput = EmptyString)
          || bool_decide (addEnvInput ∈ environments)
       then []
       else [CommandItem.mk addEnvInput true]).
Proof.
  split; [|split; [apply NoDup_newSet|split; [apply elem_of_newSet|split]]].
  - unfold addEnvItems.
    destruct (decide (addEnvInput = EmptyString)) as [Hempty|Hempty].
    + rewrite !(bool_decide_eq_true_2 (addEnvInput = EmptyString)) by done.
      cbn [orb]. rewrite app_nil_r. by apply known_not_new.
    + rewrite !(bool_decide_eq_false_2 (addEnvInput = EmptyString)) by done.
      cbn [orb]. unfold setAdd.
      destruct (decide (addEnvInput ∈ environments)) as [Hknown|Hknown].
      * rewrite (bool_decide_eq_true_2 (addEnvInput ∈ environments)) by done.
        rewrite (bool_decide_eq_true_2 (addEnvInput ∈ newSet environments))
          by (by apply elem_of_newSet).
        rewrite app_nil_r. by apply known_not_new.
      * rewrite (bool_decide_eq_false_2 (addEnvInput ∈ environments)) by done.
        assert (Hnew : addEnvInput ∉ newSet environments)
          by (by rewrite elem_of_newSet).
        rewrite (bool_decide_eq_false_2 (addEnvInput ∈ newSet environments))
          by done.
        rewrite fmap_app, known_not_new by done. f_equal.
        cbn [fmap list_fmap]. by rewrite bool_decide_eq_false_2.
  - case_bool_decide as Hnodup; [|done].
    unfold newSet. by rewrite foldl_setAdd_NoDup.
  - unfold addEnvItems.
    set (current := newSet environments).
    set (item := fun envName =>
           CommandItem.mk envName (negb (bool_decide (envName ∈ current)))).
    assert (Hvalues : ∀ l : list string, CommandItem.value <$> (item <$> l) = l).
    { intros l. rewrite <- list_fmap_compose. apply list_fmap_id. }
    split; [|split].
    + rewrite Hvalues. case_bool_decide; [apply NoDup_newSet|].
      apply NoDup_setAdd, NoDup_newSet.
    + intros env. rewrite Hvalues. case_bool_decide as Hempty.
      * subst current. rewrite elem_of_newSet. intuition congruence.
      * rewrite elem_of_setAdd. subst current. rewrite elem_of_newSet.
        intuition congruence.
    + case_bool_decide as Hempty; cbn [orb].
      * by apply no_new_among.
      * unfold setAdd.
        assert (Hin : bool_decide (addEnvInput ∈ current)
                      = bool_decide (addEnvInput ∈ environments)).
        { apply bool_decide_ext. subst current. apply elem_of_newSet. }
        rewrite <- Hin. case_bool_decide as Hknown.
        -- by apply no_new_among.
        -- subst item. rewrite fmap_app, filter_app, no_new_among by done.
           cbn [fmap list_fmap app]. rewrite filter_cons_True.
           ++ cbn. by rewrite bool_decide_eq_false_2.
           ++ cbn. by rewrite bool_decide_eq_false_2.
Qed.

(** ** The resources table *)

Lemma table_get_set_ne (o : ResourcesTable.RowSelectionState) (key key' : string)
    (v : bool) :
  key ≠ key' ->
  ResourcesTable.get (ResourcesTable.set o key v) key' = ResourcesTable.get o key'.
Proof.
  intros Hne.
  induction o as [|[k w] o IH]; cbn [ResourcesTable.set ResourcesTable.get].
  - case_bool_decide; [done|]. cbn [ResourcesTable.get].
    by rewrite bool_decide_eq_false_2.
  - destruct (decide (k = key)) as [->|Hk].
    + rewrite (bool_decide_eq_true_2 (key = key)) by done.
      cbn [ResourcesTable.get]. by rewrite !bool_decide_eq_false_2.
    + rewrite (bool_decide_eq_false_2 (k = key)) by done.
      cbn [ResourcesTable.get]. by rewrite IH.
Qed.

Lemma table_truthy_set (o : ResourcesTable.RowSelectionState) (key : string) :
  ResourcesTable.truthyAt (ResourcesTable.set o key true) key = true.
Proof.
  unfold ResourcesTable.truthyAt.
  induction o as [|[k w] o IH]; cbn [ResourcesTable.set ResourcesTable.get].
  - case_bool_decide as Hproto.
    + by subst key.
    + cbn [ResourcesTable.get]. by rewrite bool_decide_eq_true_2.
  - destruct (decide (k = key)) as [->|Hk].
    + rewrite (bool_decide_eq_true_2 (key = key)) by done.
      cbn [ResourcesTable.get]. by rewrite bool_decide_eq_true_2.
    + rewrite (bool_decide_eq_false_2 (k = key)) by done.
      cbn [ResourcesTable.get]. by rewrite bool_decide_eq_false_2.
Qed.

Lemma table_set_entries (o : ResourcesTable.RowSelectionState) (key : string)
    (v : bool) (entry : string * bool) :
  entry ∈ ResourcesTable.set o key v -> entry = (key, v) ∨ entry ∈ o.
Proof.
  induction o as [|[k w] o IH]; cbn [ResourcesTable.set].
  - case_bool_decide; [by intros ?%elem_of_nil|].
    intros ->%list_elem_of_singleton. by left.
  - case_bool_decide as Hk.
    + subst k. intros [->|Hin]%elem_of_cons; [by left|].
      right. by apply list_elem_of_further.
    + intros [->|Hin]%elem_of_cons; [right; apply list_elem_of_here|].
      destruct (IH Hin) as [->|Hin']; [by left|].
      right. by apply list_elem_of_further.
Qed.

Lemma table_rowSelection_fold (selected : list string)
    (acc : ResourcesTable.RowSelectionState) :
  (∀ key, key ∈ selected ->
          ResourcesTable.truthyAt
            (foldl (fun rowSelection resourceId =>
                      ResourcesTable.set rowSelection resourceId true) acc selected)
            key = true)
  ∧ (∀ key, ResourcesTable.truthyAt acc key = true ->
            ResourcesTable.truthyAt
              (foldl (fun rowSelection resourceId =>
                        ResourcesTable.set rowSelection resourceId true) acc selected)
              key = true)
  ∧ (∀ entry, entry ∈ foldl (fun rowSelection resourceId =>
                        ResourcesTable.set rowSelection resourceId true) acc selected ->
              entry ∈ acc ∨ (entry.1 ∈ selected ∧ entry.2 = true)).
Proof.
  revert acc. induction selected as [|id selected IH]; intros acc; cbn [foldl].
  - split; [by intros key ?%elem_of_nil|]. split; [done|]. by left.
  - destruct (IH (ResourcesTable.set acc id true)) as (Hnew & Hkeep & Hentries).
    assert (Hstep : ∀ key, ResourcesTable.truthyAt acc key = true ->
              ResourcesTable.truthyAt (ResourcesTable.set acc id true) key = true).
    { intros key Hkey. destruct (decide (id = key)) as [->|Hne].
      - apply table_truthy_set.
      - unfold ResourcesTable.truthyAt in *. by rewrite table_get_set_ne. }
    split; [|split].
    + intros key [->|Hin]%elem_of_cons; [|by apply Hnew].
      apply Hkeep, table_truthy_set.
    + intros key Hkey. by apply Hkeep, Hstep.
    + intros entry Hin. destruct (Hentries entry Hin) as [Hset|[Hsel Htrue]].
      * destruct (table_set_entries _ _ _ _ Hset) as [->|Hacc]; [|by left].
        right. split; [apply list_elem_of_here|done].
      * right. split; [by apply list_elem_of_further|done].
Qed.

Lemma table_get_entry (o : ResourcesTable.RowSelectionState) (key : string)
    (v : bool) :
  NoDup o.*1 -> ((key, v) ∈ o ↔ ResourcesTable.get o key = Some v).
Proof.
  induction o as [|[k w] o IH]; intros Hnodup; cbn [ResourcesTable.get].
  - rewrite elem_of_nil. split; [done|discriminate].
  - cbn in Hnodup. apply NoDup_cons in Hnodup as [Hk Ho].
    rewrite elem_of_cons. case_bool_decide as Hkey.
    + subst k. split.
      * intros [Heq|Hin]; [by simplify_eq|].
        exfalso. apply Hk. apply list_elem_of_fmap. by exists (key, v).
      * intros [= ->]. by left.
    + rewrite <- (IH Ho). split; [|by right].
      intros [Heq|Hin]; [by simplify_eq|done].
Qed.

Lemma table_foldl_effects {A} (skip : A -> bool)
    (effects : A -> list ResourcesTable.Effect) (l : list A)
    (acc : list ResourcesTable.Effect) :
  foldl (fun acc a => if skip a then acc else acc ++ effects a) acc l
  = acc ++ (l ≫= fun a => if skip a then [] else effects a).
Proof.
  revert acc. induction l as [|a l IH]; intros acc; cbn [foldl].
  - by rewrite app_nil_r.
  - rewrite IH.
    change ((a :: l) ≫= ?f) with (f a ++ (l ≫= f)). cbn beta.
    destruct (skip a); [done|]. by rewrite <- app_assoc.
Qed.

Lemma table_dispatched_app (effects1 effects2 : list ResourcesTable.Effect) :
  ResourcesTable.dispatched (effects1 ++ effects2)
  = ResourcesTable.dispatched effects1 ++ ResourcesTable.dispatched effects2.
Proof. unfold ResourcesTable.dispatched. apply omap_app. Qed.

Lemma table_dispatched_bind {A} (l : list A)
    (effects : A -> list ResourcesTable.Effect) (action : ResourcesTable.Action) :
  action ∈ ResourcesTable.dispatched (l ≫= effects)
  ↔ ∃ a, a ∈ l ∧ action ∈ ResourcesTable.dispatched (effects a).
Proof.
  induction l as [|a l IH].
  - split; [by intros ?%elem_of_nil|]. by intros (a & ?%elem_of_nil & _).
  - change ((a :: l) ≫= effects) with (effects a ++ (l ≫= effects)).
    rewrite table_dispatched_app, elem_of_app, IH. split.
    + intros [Hhere|(b & Hb & Hin)].
      * exists a. split; [apply list_elem_of_here|done].
      * exists b. split; [by apply list_elem_of_further|done].
    + intros (b & [->|Hb]%elem_of_cons & Hin); [by left|].
      right. by exists b.
Qed.

Lemma table_length_bind {A} (l : list A)
    (effects : A -> list ResourcesTable.Effect) :
  (∀ a, length (effects a) = 2 * length (ResourcesTable.dispatched (effects a))) ->
  length (l ≫= effects) = 2 * length (ResourcesTable.dispatched (l ≫= effects)).
Proof.
  intros Hone. induction l as [|a l IH]; [done|].
  change ((a :: l) ≫= effects) with (effects a ++ (l ≫= effects)).
  rewrite table_dispatched_app, !length_app, IH, Hone. lia.
Qed.

Section TableProperties.

Variable nodeIdFromResourceId : ResourceId -> string.
Variable typeIdFromResourceId : ResourceId -> string.

Local Abbreviation onChange :=
  (ResourcesTable.onRowSelectionChange nodeIdFromResourceId typeIdFromResourceId).

Lemma onRowSelectionChange_effects (resources : list Resource.t)
    (selected : list string) (updater : ResourcesTable.Updater) :
  onChange resources selected updater
  = ((filter (fun entry => entry.2 = true)
        (ResourcesTable.newRowSelectionValue selected updater)).*1
       ≫= fun resourceId =>
            if bool_decide (resourceId ∈ selected) then []
            else [ResourcesTable.PosthogCapture "resources_table_row_selected"
                    (ResourcesTable.resourceTypeOf nodeIdFromResourceId
                       typeIdFromResourceId resources resourceId);
                  ResourcesTable.QueryDataDispatch
                    (ResourcesTable.SelectResource resourceId)])
    ++ (selected ≫= fun resourceId =>
          if ResourcesTable.truthyAt
               (ResourcesTable.newRowSelectionValue selected updater) resourceId
          then []
          else [ResourcesTable.PosthogCapture "resources_table_row_deselected"
                  (ResourcesTable.resourceTypeOf nodeIdFromResourceId
                     typeIdFromResourceId resources resourceId);
                ResourcesTable.QueryDataDispatch
                  (ResourcesTable.DeselectResource resourceId)]).
Proof.
  unfold ResourcesTable.onRowSelectionChange.
  by rewrite !table_foldl_effects.
Qed.

(** X18. A change of the row selection is relayed as the difference to the
    selected resources: [SelectResource] is dispatched exactly for the ids
    that the new selection holds as [true] and that are not selected yet,
    [DeselectResource] exactly for the selected ids at which the new
    selection reads as falsy, that is, ids it holds as [false], or does not
    hold while they do not name a property that plain objects inherit;
    every action comes with one telemetry event. *)
Theorem table_selection_diff (resources : list Resource.t)
    (selected : list string) (updater : ResourcesTable.Updater) (id : string) :
  NoDup (ResourcesTable.newRowSelectionValue selected updater).*1 ->
  let new := ResourcesTable.newRowSelectionValue selected updater in
  let effects := onChange resources selected updater in
  (ResourcesTable.SelectResource id ∈ ResourcesTable.dispatched effects
   ↔ (id ∉ selected) ∧ ResourcesTable.get new id = Some true)
  ∧ (ResourcesTable.DeselectResource id ∈ ResourcesTable.dispatched effects
     ↔ id ∈ selected
       ∧ (ResourcesTable.get new id = Some false
          ∨ (ResourcesTable.get new id = None ∧ JS.inherited id = false)))
  ∧ length effects = 2 * length (ResourcesTable.dispatched effects).
Proof.
  intros Hnodup new effects. subst effects.
  rewrite onRowSelectionChange_effects. fold new.
  rewrite table_dispatched_app, !elem_of_app, !table_dispatched_bind.
  assert (Hfalsy : ∀ x, ResourcesTable.truthyAt new x = false
            ↔ ResourcesTable.get new x = Some false
              ∨ (ResourcesTable.get new x = None ∧ JS.inherited x = false)).
  { intros x. unfold ResourcesTable.truthyAt.
    destruct (ResourcesTable.get new x) as [[]|]; intuition congruence. }
  split; [|split].
  - split.
    + intros [(x & Hx & Hin)|(x & Hx & Hin)].
      * case_bool_decide as Hsel; [by apply elem_of_nil in Hin|].
        apply list_elem_of_singleton in Hin as [= ->].
        split; [done|]. apply table_get_entry; [done|].
        apply list_elem_of_fmap in Hx as ([k v] & -> & Hentry).
        apply list_elem_of_filter in Hentry as [Htrue Hentry].
        cbn in Htrue. by subst v.
      * destruct (ResourcesTable.truthyAt new x);
          [by apply elem_of_nil in Hin|].
        by apply list_elem_of_singleton in Hin.
    + intros [Hout Hget]. left. exists id. split.
      * apply list_elem_of_fmap. exists (id, true). split; [done|].
        apply list_elem_of_filter. split; [done|]. by apply table_get_entry.
      * rewrite bool_decide_eq_false_2 by done. apply list_elem_of_here.
  - rewrite <- Hfalsy. split.
    + intros [(x & Hx & Hin)|(x & Hx & Hin)].
      * case_bool_decide as Hsel; [by apply elem_of_nil in Hin|].
        by apply list_elem_of_singleton in Hin.
      * destruct (ResourcesTable.truthyAt new x) eqn:Htruthy;
          [by apply elem_of_nil in Hin|].
        apply list_elem_of_singleton in Hin as [= ->]. done.
    + intros [Hsel Htruthy]. right. exists id. split; [done|].
      rewrite Htruthy. apply list_elem_of_here.
  - rewrite !length_app.
    match goal with
    | |- length (?l1 ≫= ?f1) + length (?l2 ≫= ?f2) = _ =>
        pose proof (table_length_bind l1 f1) as Hselects;
        pose proof (table_length_bind l2 f2) as Hdeselects
    end.
    rewrite Hselects, Hdeselects; [lia| |].
    + intros x. by destruct (ResourcesTable.truthyAt new x).
    + intros x. by case_bool_decide.
Qed.

(** X19. Reporting the selection that is already there relays nothing: with
    an updater that returns the current row selection, as a function or as
    a value, no telemetry is sent and no action dispatched. *)
Theorem table_selection_unchanged (resources : list Resource.t)
    (selected : list string) :
  onChange resources selected (ResourcesTable.UpdaterFunction (fun current => current))
    = []
  ∧ onChange resources selected
      (ResourcesTable.UpdaterValue (ResourcesTable.rowSelection selected))
    = [].
Proof.
  assert (Hsame : ∀ updater,
    ResourcesTable.newRowSelectionValue selected updater
      = ResourcesTable.rowSelection selected ->
    onChange resources selected updater = []).
  { intros updater Hnew. rewrite onRowSelectionChange_effects, Hnew.
    destruct (table_rowSelection_fold selected []) as (Htruthy & _ & Hentries).
    fold (ResourcesTable.rowSelection selected) in Htruthy, Hentries.
    assert (Hnil : ∀ (l : list string) (f : string -> list ResourcesTable.Effect),
              (∀ x, x ∈ l -> f x = []) -> l ≫= f = []).
    { intros l f Hf. induction l as [|x l IH]; [done|].
      change ((x :: l) ≫= f) with (f x ++ (l ≫= f)).
      rewrite Hf by apply list_elem_of_here.
      apply IH. intros y Hy. apply Hf. by apply list_elem_of_further. }
    rewrite !Hnil; [done| |].
    - intros x Hx. by rewrite Htruthy.
    - intros x Hx. apply list_elem_of_fmap in Hx as (entry & -> & Hentry).
      apply list_elem_of_filter in Hentry as [_ Hentry].
      destruct (Hentries entry Hentry) as [?%elem_of_nil|[Hsel _]]; [done|].
      by rewrite bool_decide_eq_true_2. }
  split; by apply Hsame.
Qed.

End TableProperties.

Lemma table_selection_diff_witness :
  ResourcesTable.SelectResource "B"
    ∈ ResourcesTable.dispatched
        (ResourcesTable.onRowSelectionChange sampleTypeId sampleTypeId []
           ["A"] (ResourcesTable.UpdaterValue [("B", true); ("A", false)]))
  ∧ ResourcesTable.DeselectResource "A"
    ∈ ResourcesTable.dispatched
        (ResourcesTable.onRowSelectionChange sampleTypeId sampleTypeId []
           ["A"] (ResourcesTable.UpdaterValue [("B", true); ("A", false)])).
Proof.
  assert (Hkeys : NoDup (ResourcesTable.newRowSelectionValue ["A"]
            (ResourcesTable.UpdaterValue [("B", true); ("A", false)])).*1).
  { apply (bool_decide_unpack _). reflexivity. }
  split.
  - apply (table_selection_diff sampleTypeId sampleTypeId [] ["A"]
             (ResourcesTable.UpdaterValue [("B", true); ("A", false)]) "B" Hkeys).
    split; [|reflexivity]. apply (bool_decide_unpack _). reflexivity.
  - apply (table_selection_diff sampleTypeId sampleTypeId [] ["A"]
             (ResourcesTable.UpdaterValue [("B", true); ("A", false)]) "A" Hkeys).
    split; [apply list_elem_of_here|by left].
Defined.

(** X20. The type shown for a resource is the type of the last part of its
    id, whatever its ancestors are, and the empty string for an empty id. *)
Theorem getType_last_part (ancestors : ResourceId) (part : ResourceIdPart.t) :
  getType (ancestors ++ [part]) = ResourceIdPart.type part
  ∧ getType [part] = ResourceIdPart.type part
  ∧ getType [] = EmptyString.
Proof.
  unfold getType. rewrite last_snoc. by repeat split.
Qed.

Lemma renderRows_fold (rows : list (string * bool)) (seen : bool)
    (rendered : list TableRow.t) :
  (foldl (fun state row =>
            let '(firstSelectedRowSeen, rendered) := state in
            let attach := row.2 && negb firstSelectedRowSeen in
            (firstSelectedRowSeen || attach,
             rendered ++
               [TableRow.mk row.1 (if row.2 then Some "selected" else None) attach]))
         (seen, rendered) rows).2
  = rendered ++ rowsFrom seen rows.
Proof.
  revert seen rendered. induction rows as [|row rows IH]; intros seen rendered.
  - cbn. by rewrite app_nil_r.
  - cbn [foldl rowsFrom]. rewrite IH. by rewrite <- app_assoc.
Qed.

Lemma renderRows_rowsFrom (rows : list (string * bool)) :
  renderRows rows = rowsFrom false rows.
Proof. unfold renderRows. by rewrite renderRows_fold. Qed.

Lemma rowsFrom_keys (rows : list (string * bool)) (seen : bool) :
  TableRow.key <$> rowsFrom seen rows = rows.*1.
Proof.
  revert seen. induction rows as [|row rows IH]; intros seen; [done|].
  cbn [rowsFrom fmap list_fmap]. f_equal. apply IH.
Qed.

Lemma rowsFrom_seen (rows : list (string * bool)) :
  TableRow.ref <$> rowsFrom true rows = replicate (length rows) false.
Proof.
  induction rows as [|row rows IH]; [done|].
  cbn [rowsFrom fmap list_fmap length replicate TableRow.ref].
  rewrite andb_false_r. cbn [orb]. f_equal. exact IH.
Qed.

Lemma rowsFrom_unselected (rows after : list (string * bool)) :
  (∀ row, row ∈ rows -> row.2 = false) ->
  TableRow.ref <$> rowsFrom false (rows ++ after)
  = replicate (length rows) false ++ (TableRow.ref <$> rowsFrom false after).
Proof.
  induction rows as [|row rows IH]; intros Hnone; [done|].
  cbn [app rowsFrom fmap list_fmap length replicate TableRow.ref].
  rewrite (Hnone row) by apply list_elem_of_here. cbn [andb orb]. f_equal.
  apply IH. intros r Hr. apply Hnone. by apply list_elem_of_further.
Qed.

(** X21. Of the rows of the table, in their sorted order, the first selected
    one, and no other row, gets the callback that scrolls it into view;
    without a selected row no row gets it. The rows keep their order and
    their keys. *)
Theorem first_selected_row_scrolls (before after : list (string * bool))
    (row : string * bool) :
  (∀ r, r ∈ before -> r.2 = false) ->
  row.2 = true ->
  TableRow.ref <$> renderRows (before ++ row :: after)
    = replicate (length before) false ++ true :: replicate (length after) false
  ∧ TableRow.ref <$> renderRows before = replicate (length before) false
  ∧ TableRow.key <$> renderRows (before ++ row :: after)
    = (before ++ row :: after).*1.
Proof.
  intros Hbefore Hrow. rewrite !renderRows_rowsFrom.
  split; [|split].
  - rewrite rowsFrom_unselected by done. f_equal.
    cbn [rowsFrom fmap list_fmap TableRow.ref]. rewrite Hrow. cbn [andb negb orb].
    f_equal. apply rowsFrom_seen.
  - rewrite <- (app_nil_r before) at 1.
    rewrite rowsFrom_unselected by done. cbn. by rewrite app_nil_r.
  - apply rowsFrom_keys.
Qed.

Lemma first_selected_row_scrolls_witness :
  TableRow.ref <$> renderRows [("a", false); ("b", true); ("c", true)]
  = [false; true; false].
Proof.
  apply (first_selected_row_scrolls [("a", false)] [("c", true)] ("b", true)).
  - intros r Hin. apply elem_of_cons in Hin as [->|Hin]; [reflexivity|].
    by apply elem_of_nil in Hin.
  - reflexivity.
Defined.

(** ** Order of numbers *)

Lemma SFleb_trans (x y z : spec_float) :
  SFleb x y = true -> SFleb y z = true -> SFleb x z = true.
Proof.
  unfold SFleb, SFcompare.
  destruct x as [sx|sx| |sx mx ex], y as [sy|sy| |sy my ey], z as [sz|sz| |sz mz ez];
    try done;
    repeat match goal with s : bool |- _ => destruct s end; try done.
  all: rewrite ?Pos.compare_cont_spec; cbn [Pos.switch_Eq].
  all: destruct (Z.compare_spec ex ey), (Z.compare_spec ey ez), (Z.compare_spec ex ez);
    try done; try lia; subst.
  all: destruct (Pos.compare_spec mx my), (Pos.compare_spec my mz),
         (Pos.compare_spec mx mz); cbn; try done; try lia.
Qed.

Lemma float_leb_trans (a b c : float) :
  PrimFloat.leb a b = true -> PrimFloat.leb b c = true -> PrimFloat.leb a c = true.
Proof. rewrite !FloatAxioms.leb_spec. apply SFleb_trans. Qed.

Lemma SFltb_not_leb (x y : spec_float) :
  SFltb x y = true -> SFleb y x = false.
Proof.
  unfold SFltb, SFleb, SFcompare.
  destruct x as [sx|sx| |sx mx ex], y as [sy|sy| |sy my ey]; try done;
    repeat match goal with s : bool |- _ => destruct s end; try done.
  all: rewrite ?Pos.compare_cont_spec; cbn [Pos.switch_Eq].
  all: destruct (Z.compare_spec ex ey), (Z.compare_spec ey ex);
    try done; try lia; subst.
  all: destruct (Pos.compare_spec mx my), (Pos.compare_spec my mx);
    cbn; try done; try lia.
Qed.

Lemma float_ltb_not_leb (a b : float) :
  PrimFloat.ltb a b = true -> PrimFloat.leb b a = false.
Proof.
  rewrite FloatAxioms.ltb_spec, FloatAxioms.leb_spec. apply SFltb_not_leb.
Qed.

Lemma float_eqb_not_ltb (a b : float) :
  PrimFloat.eqb a b = true -> PrimFloat.ltb a b = false.
Proof.
  rewrite FloatAxioms.eqb_spec, FloatAxioms.ltb_spec. unfold SFeqb, SFltb.
  by destruct (SFcompare _ _) as [[]|].
Qed.

Lemma segmentCovers_left_to_right labelX labelWidth start end_ :
  segmentCovers labelX labelWidth start end_ = true ->
  PrimFloat.leb (XY.x start) (XY.x end_) = true.
Proof.
  unfold segmentCovers, JS.geb.
  intros [[H1 H2]%andb_prop|[H1 H2]%andb_prop]%orb_prop;
    by apply (float_leb_trans _ _ _ H1 H2).
Qed.

(** X22. Only a segment that runs from left to right, or straight up or
    down, can cover a label. On a path whose segments all run from right to
    left no segment covers it, and the corrected position of a label with
    all three fields is [Infinity]. *)
Theorem leftward_path_not_corrected (label : Label.t) (points : list XY.t)
    (labelX labelY labelWidth : float) :
  Label.x label = Some labelX ->
  Label.y label = Some labelY ->
  Label.width label = Some labelWidth ->
  JS.falsyNumber labelX || JS.falsyNumber labelY || JS.falsyNumber labelWidth = false ->
  (∀ pair, pair ∈ consecutivePairs points ->
           PrimFloat.ltb (XY.x pair.2) (XY.x pair.1) = true) ->
  (∀ pair, pair ∈ consecutivePairs points ->
           segmentCovers labelX labelWidth pair.1 pair.2 = false)
  ∧ calculateClosestPathMidpoint label points = Some infinity.
Proof.
  intros Hx Hy Hw Hguard Hleft.
  assert (Hnone : ∀ pair, pair ∈ consecutivePairs points ->
            segmentCovers labelX labelWidth pair.1 pair.2 = false).
  { intros pair Hpair.
    destruct (segmentCovers labelX labelWidth pair.1 pair.2) eqn:Hcov; [|done].
    apply segmentCovers_left_to_right in Hcov.
    by rewrite (float_ltb_not_leb _ _ (Hleft pair Hpair)) in Hcov. }
  split; [exact Hnone|].
  unfold calculateClosestPathMidpoint. rewrite Hx, Hy, Hw, Hguard. f_equal.
  generalize infinity as closest. clear Hx Hy Hw Hguard Hleft.
  induction points as [|start points IH]; intros closest; [done|].
  destruct points as [|end_ points]; [done|].
  rewrite scanSegments_step.
  pose proof (Hnone (start, end_) (list_elem_of_here _ _)) as Hhere.
  cbn [fst snd] in Hhere. rewrite Hhere.
  apply IH. intros pair Hpair. apply Hnone. by apply list_elem_of_further.
Qed.

Lemma leftward_path_not_corrected_witness :
  calculateClosestPathMidpoint (labelAtCorner 4%float)
    [XY.mk 20 0; XY.mk 5 0; XY.mk 0 0]%float
  = Some infinity.
Proof.
  apply (leftward_path_not_corrected _ _ 10%float 5%float 4%float);
    try reflexivity.
  intros pair Hin.
  apply elem_of_cons in Hin as [->|Hin]; [reflexivity|].
  apply elem_of_cons in Hin as [->|Hin]; [reflexivity|].
  by apply elem_of_nil in Hin.
Defined.

(** X23. The running minimum keeps its value on a tie: a candidate at the
    same distance from [label.y] as the current value never replaces it, so
    among equally close values the first one met is the result. *)
Theorem tie_keeps_first (labelY closest y : float) :
  PrimFloat.eqb (PrimFloat.abs (y - labelY)) (PrimFloat.abs (closest - labelY)) = true ->
  closerY labelY closest y = closest.
Proof.
  intros Htie. unfold closerY. by rewrite (float_eqb_not_ltb _ _ Htie).
Qed.

Lemma tie_keeps_first_witness : closerY 5%float 0%float 10%float = 0%float.
Proof. apply tie_keeps_first. reflexivity. Defined.

(** X24. The two zoom buttons are never disabled together: whatever the
    zoom, also one outside the bounds or [NaN], at least one of zooming in
    and zooming out stays available. *)
Theorem zoom_buttons_not_both_disabled (zoom : float) :
  zoomInDisabled zoom && zoomOutDisabled zoom = false.
Proof.
  unfold zoomInDisabled, zoomOutDisabled, JS.geb.
  destruct (PrimFloat.leb MAX_ZOOM zoom) eqn:Hmax; [|done].
  destruct (PrimFloat.leb zoom MIN_ZOOM) eqn:Hmin; [|done].
  pose proof (float_leb_trans _ _ _ Hmax Hmin) as Habsurd.
  discriminate Habsurd.
Qed.
